(** * Binary-tree construction and metrics

    A shallow embedding of the tree constructors of [Problem.py],
    [problemvar.py] and [firtst1.py]: the format detector, the construction
    dispatchers, the level-order, parenthesis, pre-order and post-order
    builders, the depth, balance and diameter metrics, and the serializer
    of [problemvar.py].

    Conventions of the embedding:
    - Python integers are [Z]; Python strings are ASCII [string]s.
    - A [TreeNode] object lives in a store of nodes addressed by allocation
      order; child links are optional addresses.  A builder that mutates
      nodes through a queue works on that store, and the finished object
      graph is read back as an inductive [tree].
    - A call either returns, raises a Python exception, or uses up the fuel
      that bounds the recursion of the model ([OutOfFuel]); the theorems show
      that the fuel supplied by every builder is enough.  The interpreter's
      own limits (recursion depth, length of integer literals) are not part
      of the model. *)

From Stdlib Require Import ZArith Ascii String List Lia.
From Stdlib Require Import Decimal DecimalString DecimalPos.
From stdpp Require Import base option list strings gmap.

Open Scope Z_scope.

#[local] Set Warnings "-clear-no-such-hyp".

(** ** Values and trees *)

(** The items of an input sequence: integers, [None], and the one-character
    strings obtained by indexing a [str]. *)
Inductive value : Type :=
  | VInt (z : Z)
  | VNone
  | VStr (s : string).

Global Instance value_eq_dec : EqDecision value.
Proof. solve_decision. Defined.

(** Python's [==] on these values. *)
Definition py_eq (a b : value) : bool := bool_decide (a = b).

(** [x in xs] for a list [xs]. *)
Definition py_in (x : value) (xs : list value) : bool :=
  existsb (py_eq x) xs.

(** The object graph below a [TreeNode] reference; [Leaf] is [None]. *)
Inductive tree : Type :=
  | Leaf
  | Node (data : value) (left right : tree).

Global Instance tree_eq_dec : EqDecision tree.
Proof. solve_decision. Defined.

Fixpoint node_count (t : tree) : nat :=
  match t with
  | Leaf => 0%nat
  | Node _ l r => S (node_count l + node_count r)
  end.

(** Values met in root, left, right order. *)
Fixpoint preorder (t : tree) : list value :=
  match t with
  | Leaf => []
  | Node d l r => d :: preorder l ++ preorder r
  end.

(** ** Exceptions and outcomes *)

Inductive exn : Type :=
  | ValueError (msg : string)
  | NotImplementedError (msg : string)
  | TypeError (msg : string)
  | AttributeError (msg : string)
  | IndexError (msg : string).

(** [str(e)] for an exception built from one message. *)
Definition exn_str (e : exn) : string :=
  match e with
  | ValueError m | NotImplementedError m | TypeError m
  | AttributeError m | IndexError m => m
  end.

Inductive outcome (A : Type) : Type :=
  | Returned (a : A)
  | Raised (e : exn)
  | OutOfFuel.

Arguments Returned {A} a.
Arguments Raised {A} e.
Arguments OutOfFuel {A}.

(** Computations over a cursor of type [S] that may raise. *)
Definition cursorM (S A : Type) : Type := S → outcome (A * S).

Definition cret {S A} (a : A) : cursorM S A := λ s, Returned (a, s).

Definition cbind {S A B} (m : cursorM S A) (k : A → cursorM S B) : cursorM S B :=
  λ s, match m s with
       | Returned (a, s') => k a s'
       | Raised e => Raised e
       | OutOfFuel => OutOfFuel
       end.

Definition cget {S} : cursorM S S := λ s, Returned (s, s).
Definition cput {S} (s' : S) : cursorM S unit := λ _, Returned (tt, s').
Definition craise {S A} (e : exn) : cursorM S A := λ _, Raised e.
Definition cfail {S A} : cursorM S A := λ _, OutOfFuel.

Declare Scope cursor_scope.
Delimit Scope cursor_scope with cursor.
Notation "'let*' x ':=' m 'in' k" := (cbind m (λ x, k))
  (at level 10, x name, m at level 100, k at level 200) : cursor_scope.

(** The result of a cursor computation, the final cursor dropped. *)
Definition crun {S A} (m : cursorM S A) (s : S) : outcome A :=
  match m s with
  | Returned (a, _) => Returned a
  | Raised e => Raised e
  | OutOfFuel => OutOfFuel
  end.

(** ** The node store *)

Module TreeNode.
(** One [TreeNode] object: [__slots__ = ['data', 'left', 'right']]. *)
Record t : Type := mk { data : value; left : option nat; right : option nat }.
End TreeNode.

(** The objects allocated so far; a reference is an index into the store. *)
Abbreviation store := (list TreeNode.t).

(** [TreeNode(d)]: a fresh node, both children [None]. *)
Definition new_node (h : store) (d : value) : store * nat :=
  (h ++ [TreeNode.mk d None None], length h).

(** [p.left = c] and [p.right = c]. *)
Definition set_left (h : store) (p c : nat) : store :=
  alter (λ n, TreeNode.mk (TreeNode.data n) (Some c) (TreeNode.right n)) p h.

Definition set_right (h : store) (p c : nat) : store :=
  alter (λ n, TreeNode.mk (TreeNode.data n) (TreeNode.left n) (Some c)) p h.

(** The tree below a reference.  [None]: the fuel ran out or a reference
    points outside the store. *)
Fixpoint read_tree (fuel : nat) (h : store) (ref : option nat) : option tree :=
  match ref with
  | None => Some Leaf
  | Some p =>
      match fuel with
      | O => None
      | S fuel' =>
          n ← h !! p;
          l ← read_tree fuel' h (TreeNode.left n);
          r ← read_tree fuel' h (TreeNode.right n);
          Some (Node (TreeNode.data n) l r)
      end
  end.

Definition returned_tree (h : store) (root : nat) : outcome tree :=
  match read_tree (length h) h (Some root) with
  | Some t => Returned t
  | None => OutOfFuel
  end.

(** ** The level-order loop

    [build_from_level_order] ([Problem.py], [problemvar.py]) and
    [LevelOrderTreeConstructor.build_tree] ([firtst1.py]) run the same
    [while queue and i < len(level_order)] loop; they differ in the test
    that recognises a null marker, here [is_null]. *)

Section level_order_loop.
Variable is_null : value → bool.
Variable level_order : list value.

(** [if i < len(level_order) and <level_order[i] is not null>:
       current.<child> = TreeNode(level_order[i]);
       queue.append(current.<child>)] *)
Definition attach_child (set_child : store → nat → nat → store)
    (current i : nat) (st : store * list nat) : store * list nat :=
  let '(h, queue) := st in
  match level_order !! i with
  | Some x =>
      if is_null x then (h, queue)
      else
        let '(h', c) := new_node h x in
        (set_child h' current c, queue ++ [c])
  | None => (h, queue)
  end.

Fixpoint level_order_loop (fuel : nat) (h : store) (queue : list nat) (i : nat)
    : option store :=
  match queue with
  | [] => Some h
  | current :: queue =>
      if bool_decide (i < length level_order)%nat then
        match fuel with
        | O => None
        | S fuel' =>
            let '(h, queue) := attach_child set_left current i (h, queue) in
            let i := (i + 1)%nat in
            let '(h, queue) := attach_child set_right current i (h, queue) in
            let i := (i + 1)%nat in
            level_order_loop fuel' h queue i
        end
      else Some h
  end.

(** From [root = TreeNode(level_order[0])] to [return root]. *)
Definition level_order_from_root (x0 : value) : outcome tree :=
  let '(h, root) := new_node [] x0 in
  let queue := [root] in
  let i := 1%nat in
  match level_order_loop (length level_order) h queue i with
  | Some h => returned_tree h root
  | None => OutOfFuel
  end.
End level_order_loop.

(** ** Raw input *)

(** What a caller hands to the detector and the dispatcher: a list, a
    string, or nothing ([None]). *)
Inductive input_data : Type :=
  | InList (l : list value)
  | InStr (s : string)
  | InNone.

(** [bool(input_data)]. *)
Definition truthy (input : input_data) : bool :=
  match input with
  | InList l => negb (bool_decide (l = []))
  | InStr s => negb (bool_decide (s = ""))
  | InNone => false
  end.

(** The characters of a string, and the items [s[0]], [s[1]], ... that
    indexing it yields. *)
Definition chars (s : string) : list ascii := list_ascii_of_string s.

Definition str_items (s : string) : list value :=
  map (λ c, VStr (String c "")) (chars s).

(** [c.isdigit()] for an ASCII character, and for a string. *)
Definition isdigit (c : ascii) : bool :=
  bool_decide (48 ≤ nat_of_ascii c ≤ 57)%nat.

Definition str_isdigit (s : string) : bool :=
  negb (bool_decide (s = "")) && forallb isdigit (chars s).

(** ** The builders shared by [Problem.py] and [problemvar.py] *)

Module AdvancedTreeConstructor.

Definition detect_input_format (input : input_data) : option string :=
  if negb (truthy input) then None
  else if match input with
          | InList l => py_in (VInt (-1)) l || py_in (VInt (-999)) l
          | _ => false
          end
  then Some "level_order"
  else if match input with
          | InStr s =>
              bool_decide
                ((list_to_set (chars s) : gset ascii) ∩ list_to_set (chars "()") ≠ ∅)
          | _ => false
          end
  then Some "parenthesis"
  else Some "pre_order".

Definition default_null_marker : value := VInt (-1).

(** [build_from_level_order(level_order, null_marker=-1)] *)
Definition build_from_level_order (level_order : list value) (null_marker : value)
    : outcome tree :=
  match level_order with
  | [] => Returned Leaf
  | x0 :: _ =>
      if py_eq x0 null_marker then Returned Leaf
      else level_order_from_root (λ x, py_eq x null_marker) level_order x0
  end.

(** *** Parenthesis text *)

(** [int(tok)] for a token made of digits and ['-'] only: an optional
    minus sign, then at least one digit. *)
Definition digit_value (c : ascii) : Z := Z.of_nat (nat_of_ascii c) - 48.

Definition digits_value (ds : list ascii) : Z :=
  fold_left (λ acc c, 10 * acc + digit_value c) ds 0.

Definition py_int (tok : list ascii) : option Z :=
  match tok with
  | [] => None
  | c :: rest =>
      if bool_decide (c = "-"%char) then
        if negb (bool_decide (rest = [])) && forallb isdigit rest
        then Some (- digits_value rest) else None
      else
        if forallb isdigit tok then Some (digits_value tok) else None
  end.

Definition invalid_literal (tok : list ascii) : exn :=
  ValueError ("invalid literal for int() with base 10: '"
              +:+ string_of_list_ascii tok +:+ "'").

Section parse.
Variable s : string.

(** [while i < len(s) and (s[i].isdigit() or s[i] == '-'): i += 1];
    [n] bounds the iterations left, [len(s) - i] at the start. *)
Fixpoint scan_value (n : nat) (i : nat) : nat :=
  match n with
  | O => i
  | S n' =>
      match chars s !! i with
      | Some c =>
          if isdigit c || bool_decide (c = "-"%char)
          then scan_value n' (i + 1)%nat else i
      | None => i
      end
  end.

(** [s[start:i]] *)
Definition slice (start i : nat) : list ascii :=
  take (i - start)%nat (drop start (chars s)).

(** [i < len(s) and s[i] == '('] *)
Definition at_open (i : nat) : bool :=
  bool_decide (chars s !! i = Some "("%char).

Fixpoint parse_tree (fuel : nat) : cursorM nat tree :=
  match fuel with
  | O => cfail
  | S fuel' =>
      (let* start := cget in
       let i := scan_value (length (chars s) - start)%nat start in
       let* _ := cput i in
       match py_int (slice start i) with
       | None => craise (invalid_literal (slice start i))
       | Some v =>
           let* left :=
             (let* i := cget in
              if at_open i then
                let* _ := cput (i + 1)%nat in
                let* t := parse_tree fuel' in
                let* i := cget in
                let* _ := cput (i + 1)%nat in
                cret t
              else cret Leaf) in
           let* right :=
             (let* i := cget in
              if at_open i then
                let* _ := cput (i + 1)%nat in
                let* t := parse_tree fuel' in
                let* i := cget in
                let* _ := cput (i + 1)%nat in
                cret t
              else cret Leaf) in
           cret (Node (VInt v) left right)
       end)%cursor
  end.
End parse.

(** [build_from_parenthesis(s)] for a string [s]. *)
Definition build_from_parenthesis (s : string) : outcome tree :=
  if bool_decide (s = "") then Returned Leaf
  else crun (parse_tree s (S (length (chars s)))) 0%nat.

(** *** Pre-order and post-order lists *)

Section pre_order.
Variable pre_order : list value.

Fixpoint build_recursive_pre (fuel : nat) : cursorM nat tree :=
  match fuel with
  | O => cfail
  | S fuel' =>
      (let* index := cget in
       if bool_decide (length pre_order ≤ index)%nat then cret Leaf
       else
         match pre_order !! index with
         | None => craise (IndexError "list index out of range")
         | Some x =>
             let* _ := cput (index + 1)%nat in
             let* left := build_recursive_pre fuel' in
             let* right := build_recursive_pre fuel' in
             cret (Node x left right)
         end)%cursor
  end.
End pre_order.

Definition build_from_pre_order (pre_order : list value) : outcome tree :=
  if bool_decide (pre_order = []) then Returned Leaf
  else crun (build_recursive_pre pre_order (S (length pre_order))) 0%nat.

Section post_order.
Variable post_order : list value.

Fixpoint build_recursive_post (fuel : nat) : cursorM Z tree :=
  match fuel with
  | O => cfail
  | S fuel' =>
      (let* index := cget in
       if bool_decide (index < 0) then cret Leaf
       else
         match post_order !! Z.to_nat index with
         | None => craise (IndexError "list index out of range")
         | Some x =>
             let* _ := cput (index - 1) in
             let* right := build_recursive_post fuel' in
             let* left := build_recursive_post fuel' in
             cret (Node x left right)
         end)%cursor
  end.
End post_order.

Definition build_from_post_order (post_order : list value) : outcome tree :=
  let index := Z.of_nat (length post_order) - 1 in
  if bool_decide (post_order = []) then Returned Leaf
  else crun (build_recursive_post post_order (S (length post_order))) index.

(** *** The builders applied to raw input

    The dispatcher calls [constructor(input_data)] whatever the input is.
    A string handed to a list builder is indexed character by character; a
    list handed to the parenthesis builder fails at [s[i].isdigit()] or at
    [int(s[start:i])]; [None] is falsy, and has no [len]. *)

Definition no_isdigit (ty : string) : exn :=
  AttributeError ("'" +:+ ty +:+ "' object has no attribute 'isdigit'").

Definition int_of_list : exn :=
  TypeError
    "int() argument must be a string, a bytes-like object or a real number, not 'list'".

(** [parse_tree()] when [s] is a non-empty list: the scan of the first
    token, then [int] of a list slice. *)
Fixpoint parse_tree_list (s : list value) : outcome tree :=
  match s with
  | [] => Raised int_of_list
  | VInt _ :: _ => Raised (no_isdigit "int")
  | VNone :: _ => Raised (no_isdigit "NoneType")
  | VStr c :: rest =>
      if str_isdigit c || bool_decide (c = "-") then parse_tree_list rest
      else Raised int_of_list
  end.

Definition level_order_constructor (input : input_data) : outcome tree :=
  match input with
  | InList l => build_from_level_order l default_null_marker
  | InStr s => build_from_level_order (str_items s) default_null_marker
  | InNone => Returned Leaf
  end.

Definition pre_order_constructor (input : input_data) : outcome tree :=
  match input with
  | InList l => build_from_pre_order l
  | InStr s => build_from_pre_order (str_items s)
  | InNone => Returned Leaf
  end.

Definition parenthesis_constructor (input : input_data) : outcome tree :=
  match input with
  | InStr s => build_from_parenthesis s
  | InList l => if bool_decide (l = []) then Returned Leaf else parse_tree_list l
  | InNone => Returned Leaf
  end.

Definition post_order_constructor (input : input_data) : outcome tree :=
  match input with
  | InList l => build_from_post_order l
  | InStr s => build_from_post_order (str_items s)
  | InNone => Raised (TypeError "object of type 'NoneType' has no len()")
  end.

(** [f"{method}"] *)
Definition method_str (method : option string) : string :=
  default "None" method.

Definition unsupported (method : option string) : exn :=
  ValueError ("Unsupported construction method: " +:+ method_str method).

End AdvancedTreeConstructor.

(** ** [Problem.py]: the dispatcher *)

Module Problem.
Import AdvancedTreeConstructor.

Definition construction_methods : gmap string (input_data → outcome tree) :=
  <["level_order" := level_order_constructor]>
  (<["pre_order" := pre_order_constructor]>
  (<["parenthesis" := parenthesis_constructor]>
  (<["post_order" := post_order_constructor]> ∅))).

(** [build_tree(input_data, method=None)]; a method is [None] or a name. *)
Definition build_tree (input : input_data) (method : option string) : outcome tree :=
  let method :=
    match method with
    | None => detect_input_format input
    | Some m => Some m
    end in
  match method ≫= (construction_methods !!.) with
  | Some constructor => constructor input
  | None => Raised (unsupported method)
  end.

End Problem.

(** ** [problemvar.py]: the dispatcher with an in-order entry *)

Module Problemvar.
Import AdvancedTreeConstructor.

(** [build_from_in_order(in_order)] *)
Definition build_from_in_order (in_order : input_data) : outcome tree :=
  Raised (NotImplementedError "In-order reconstruction requires additional traversal info").

Definition construction_methods : gmap string (input_data → outcome tree) :=
  <["level_order" := level_order_constructor]>
  (<["pre_order" := pre_order_constructor]>
  (<["parenthesis" := parenthesis_constructor]>
  (<["in_order" := build_from_in_order]>
  (<["post_order" := post_order_constructor]> ∅)))).

(** The body of the [try] block. *)
Definition dispatch (input : input_data) (method : option string) : outcome tree :=
  match method ≫= (construction_methods !!.) with
  | Some constructor => constructor input
  | None => Raised (unsupported method)
  end.

(** [build_tree(input_data, method=None)]: the lines printed, and the
    outcome the caller sees; [except Exception] prints and returns [None]. *)
Definition build_tree (input : input_data) (method : option string)
    : list string * outcome tree :=
  let method :=
    match method with
    | None => detect_input_format input
    | Some m => Some m
    end in
  match dispatch input method with
  | Returned t => ([], Returned t)
  | Raised e => (["Tree Construction Error: " +:+ exn_str e], Returned Leaf)
  | OutOfFuel => ([], OutOfFuel)
  end.

End Problemvar.

(** ** [problemvar.py]: [tree_serializer] *)

(** [str(z)] for an integer: its decimal digits, after a minus sign when it
    is negative. *)
Definition str_int (z : Z) : string := NilEmpty.string_of_int (Z.to_int z).

(** [f"{v}"] for a value. *)
Definition py_str (v : value) : string :=
  match v with
  | VInt z => str_int z
  | VNone => "None"
  | VStr s => s
  end.

Fixpoint tree_serializer (root : tree) : string :=
  match root with
  | Leaf => "None"
  | Node data l r =>
      py_str data +:+ "(" +:+ tree_serializer l +:+ ")("
        +:+ tree_serializer r +:+ ")"
  end.

(** ** [firtst1.py]: [LevelOrderTreeConstructor] *)

Module LevelOrderTreeConstructor.

Definition default_null_markers : list value := [VInt (-1); VInt (-999); VNone].

(** [while level_order and level_order[0] in null_markers:
       level_order.pop(0)], on the caller's list. *)
Fixpoint pop_leading (is_null : value → bool) (level_order : list value) : list value :=
  match level_order with
  | [] => []
  | x :: rest => if is_null x then pop_leading is_null rest else level_order
  end.

(** [build_tree(level_order, null_markers=None)].  The list argument is the
    caller's object and is popped in place: the result pairs the caller's
    list as the call leaves it with the outcome. *)
Definition build_tree (level_order : list value) (null_markers : option (list value))
    : list value * outcome tree :=
  let null_markers := default default_null_markers null_markers in
  let is_null x := py_in x null_markers in
  if bool_decide (level_order = []) || forallb is_null level_order then
    (level_order, Returned Leaf)
  else
    let level_order := pop_leading is_null level_order in
    match level_order with
    | [] => (level_order, Raised (IndexError "list index out of range"))
    | x0 :: _ => (level_order, level_order_from_root is_null level_order x0)
    end.

End LevelOrderTreeConstructor.

(** ** Tree metrics

    [max_depth] is the same code in [AdvancedTreeConstructor] ([Problem.py],
    [problemvar.py]) and in [LevelOrderTreeConstructor] ([firtst1.py]);
    [is_balanced_tree] and [tree_diameter] are in [firtst1.py]. *)
Fixpoint max_depth (root : tree) : Z :=
  match root with
  | Leaf => 0
  | Node _ l r =>
      let left_depth := max_depth l in
      let right_depth := max_depth r in
      1 + (if bool_decide (left_depth > right_depth) then left_depth else right_depth)
  end.

(** The inner [check_height]: the pair (is_balanced, height). *)
Fixpoint check_height (node : tree) : bool * Z :=
  match node with
  | Leaf => (true, 0)
  | Node _ l r =>
      let '(left_balanced, left_height) := check_height l in
      let '(right_balanced, right_height) := check_height r in
      let height_diff := Z.abs (left_height - right_height) in
      let current_balanced :=
        left_balanced && right_balanced && bool_decide (height_diff ≤ 1) in
      (current_balanced, 1 + Z.max left_height right_height)
  end.

Definition is_balanced_tree (root : tree) : bool := fst (check_height root).

(** The inner [diameter_helper]: the pair (diameter, height). *)
Fixpoint diameter_helper (node : tree) : Z * Z :=
  match node with
  | Leaf => (0, 0)
  | Node _ l r =>
      let '(left_diameter, left_height) := diameter_helper l in
      let '(right_diameter, right_height) := diameter_helper r in
      let current_diameter :=
        Z.max (Z.max left_diameter right_diameter) (left_height + right_height + 1) in
      (current_diameter, 1 + Z.max left_height right_height)
  end.

Definition tree_diameter (root : tree) : Z := fst (diameter_helper root).



(** * Vocabulary of the properties *)

Import AdvancedTreeConstructor.

(** A list of integers as input values. *)
Definition ints (l : list Z) : list value := map VInt l.

(** The tree of the level-order scenario: root 3 with the leaves 1 and 2. *)
Definition tree_3_1_2 : tree :=
  Node (VInt 3) (Node (VInt 1) Leaf Leaf) (Node (VInt 2) Leaf Leaf).

(** ** Detector *)

(** A list that contains -1 or -999; a string that contains a
    parenthesis. *)
Definition has_marker (input : input_data) : Prop :=
  ∃ l, input = InList l ∧ (VInt (-1) ∈ l ∨ VInt (-999) ∈ l).

Definition has_paren (input : input_data) : Prop :=
  ∃ s, input = InStr s ∧ ("("%char ∈ chars s ∨ ")"%char ∈ chars s).

(** ** Dispatchers *)

(** The error of the in-order builder. *)
Definition insufficient_information : exn :=
  NotImplementedError "In-order reconstruction requires additional traversal info".

(** The format names with an entry in the table of [problemvar.py]. *)
Definition known_methods : list string :=
  ["level_order"; "pre_order"; "post_order"; "parenthesis"; "in_order"].

(** ** Chains *)

(** The chain that hangs every next value as the left child, and the one
    that hangs it as the right child. *)
Fixpoint left_chain (xs : list value) : tree :=
  match xs with
  | [] => Leaf
  | x :: rest => Node x (left_chain rest) Leaf
  end.

Fixpoint right_chain (xs : list value) : tree :=
  match xs with
  | [] => Leaf
  | x :: rest => Node x Leaf (right_chain rest)
  end.

(** ** Stores built by the level-order loop *)

(** A child is always allocated after its parent, so every link of a store
    points forward and inside the store. *)
Definition link_ok (h : store) (p : nat) (ref : option nat) : Prop :=
  ∀ c, ref = Some c → (p < c < length h)%nat.

Definition wf_store (h : store) : Prop :=
  ∀ p n, h !! p = Some n →
    link_ok h p (TreeNode.left n) ∧ link_ok h p (TreeNode.right n).

(** ** Parenthesis text *)

(** The value token that [parse_tree] reads with the cursor at [i]: where
    its scan stops, and the text it hands to [int]. *)
Definition token_end (s : string) (i : nat) : nat :=
  scan_value s (length (chars s) - i) i.

Definition token (s : string) (i : nat) : list ascii :=
  slice s i (token_end s i).

(** One optional parenthesised group, as [parse_tree] reads it twice. *)
Definition group (s : string) (p : cursorM nat tree) (i : nat) : outcome (tree * nat) :=
  if at_open s i then
    match p (i + 1)%nat with
    | Returned (t, j) => Returned (t, (j + 1)%nat)
    | Raised e => Raised e
    | OutOfFuel => OutOfFuel
    end
  else Returned (Leaf, i).

(** The only failure of the parser: [int] rejecting a token. *)
Definition parse_failure (e : exn) : Prop := ∃ tok, e = invalid_literal tok.

(** What a call that stays within its fuel looks like: it returns with the
    cursor moved forward, or raises a parse failure. *)
Definition within_fuel (i : nat) (r : outcome (tree * nat)) : Prop :=
  match r with
  | Returned (_, j) => (i ≤ j)%nat
  | Raised e => parse_failure e
  | OutOfFuel => False
  end.

(** The positions at which [parse_tree] is entered while [s] is parsed:
    the start of the text, the character after the opening parenthesis of a
    node's first group, and the character after the opening parenthesis
    that follows that group. *)
Inductive reads_at (s : string) : nat → Prop :=
  | reads_root : reads_at s 0
  | reads_left i v :
      reads_at s i → py_int (token s i) = Some v →
      at_open s (token_end s i) = true →
      reads_at s (token_end s i + 1)
  | reads_right i v fuel l j :
      reads_at s i → py_int (token s i) = Some v →
      group s (parse_tree s fuel) (token_end s i) = Returned (l, j) →
      at_open s j = true →
      reads_at s (j + 1).

(** Parentheses are balanced: no closer without an opener before it, and
    no opener left open at the end. *)
Fixpoint paren_scan (cs : list ascii) (depth : nat) : bool :=
  match cs with
  | [] => bool_decide (depth = 0%nat)
  | c :: rest =>
      if bool_decide (c = "("%char) then paren_scan rest (S depth)
      else if bool_decide (c = ")"%char) then
        match depth with
        | O => false
        | S d => paren_scan rest d
        end
      else paren_scan rest depth
  end.

Definition balanced (s : string) : bool := paren_scan (chars s) 0.

(** ** Growth of the store in the level-order loop *)

(** From [h] to [h']: the nodes of [h] keep their place and their data, and
    every node added holds a value of the list that is not a null marker. *)
Definition grows (is_null : value → bool) (xs : list value) (h h' : store) : Prop :=
  (∀ p n, h !! p = Some n →
     ∃ n', h' !! p = Some n' ∧ TreeNode.data n' = TreeNode.data n) ∧
  (∀ p n', h' !! p = Some n' →
     (∃ n, h !! p = Some n) ∨
     (TreeNode.data n' ∈ xs ∧ is_null (TreeNode.data n') = false)).

(** A setter of a child link: it changes no data and moves no node. *)
Definition link_setter (set_child : store → nat → nat → store) : Prop :=
  ∀ h p c q,
    (∀ n', set_child h p c !! q = Some n' →
       ∃ n, h !! q = Some n ∧ TreeNode.data n' = TreeNode.data n) ∧
    (∀ n, h !! q = Some n →
       ∃ n', set_child h p c !! q = Some n' ∧ TreeNode.data n' = TreeNode.data n).

(** ** The array layout of a list without null markers *)

(** The tree in which the node holding [xs[j]] has the nodes holding
    [xs[2j+1]] and [xs[2j+2]] as children, read from index [j] down;
    [fuel] bounds the depth, and the length of [xs] is always enough. *)
Fixpoint heap_tree (fuel : nat) (xs : list value) (j : nat) : tree :=
  match fuel with
  | O => Leaf
  | S fuel' =>
      match xs !! j with
      | Some x => Node x (heap_tree fuel' xs (2 * j + 1)) (heap_tree fuel' xs (2 * j + 2))
      | None => Leaf
      end
  end.

(** The link to index [c] of a list of [n] values: absent past the end. *)
Definition heap_link (n c : nat) : option nat :=
  if decide (c < n)%nat then Some c else None.

(** The store after the loop has attached the children of the first [k]
    nodes: [m] nodes, one per value, those before [k] linked to their
    children and the others not yet linked. *)
Definition laid_out (xs : list value) (k m : nat) (h : store) : Prop :=
  length h = m ∧
  ∀ j x, (j < m)%nat → xs !! j = Some x →
    h !! j = Some (TreeNode.mk x
                     (if decide (j < k)%nat then heap_link (length xs) (2 * j + 1) else None)
                     (if decide (j < k)%nat then heap_link (length xs) (2 * j + 2) else None)).

(** ** Metrics and traversals *)

(** Height balance read off [max_depth]: at every node the depths of the
    two subtrees differ by at most one. *)
Fixpoint height_balanced (t : tree) : Prop :=
  match t with
  | Leaf => True
  | Node _ l r =>
      Z.abs (max_depth l - max_depth r) ≤ 1 ∧ height_balanced l ∧ height_balanced r
  end.

(** For every node of the tree, the number of nodes on the longest path
    that turns at that node: a deepest path of the left subtree, the node,
    a deepest path of the right subtree. *)
Fixpoint turning_paths (t : tree) : list Z :=
  match t with
  | Leaf => []
  | Node _ l r =>
      (max_depth l + max_depth r + 1) :: turning_paths l ++ turning_paths r
  end.

(** Values met in left, right, root order. *)
Fixpoint postorder (t : tree) : list value :=
  match t with
  | Leaf => []
  | Node d l r => postorder l ++ postorder r ++ [d]
  end.

(** ** Dispatch *)

(** The items of an input as a list builder indexes them. *)
Definition items (input : input_data) : list value :=
  match input with
  | InList l => l
  | InStr s => str_items s
  | InNone => []
  end.

(** The format names with an entry in the table of [Problem.py]. *)
Definition supported_methods : list string :=
  ["level_order"; "pre_order"; "post_order"; "parenthesis"].

(** What the dispatcher of [problemvar.py] makes of an outcome of its [try]
    block. *)
Definition caught (r : outcome tree) : list string * outcome tree :=
  match r with
  | Returned t => ([], Returned t)
  | Raised e => (["Tree Construction Error: " +:+ exn_str e], Returned Leaf)
  | OutOfFuel => ([], OutOfFuel)
  end.

(** ** Trees that parenthesis text can denote *)

(** Every value is an integer, and no node has a right child without a
    left child. *)
Fixpoint left_first (t : tree) : Prop :=
  match t with
  | Leaf => True
  | Node d l r =>
      (∃ z, d = VInt z) ∧ (l = Leaf → r = Leaf) ∧ left_first l ∧ left_first r
  end.

(** Every value of the tree is an integer. *)
Fixpoint int_valued (t : tree) : Prop :=
  match t with
  | Leaf => True
  | Node d l r => (∃ z, d = VInt z) ∧ int_valued l ∧ int_valued r
  end.

(** A character that the scan of a value token steps over. *)
Definition token_char (c : ascii) : bool :=
  isdigit c || bool_decide (c = "-"%char).

(** The text for a tree in the format that [build_from_parenthesis]
    documents, as in "1(2(4)(5))(3(6)(7))": the value, then the left
    subtree in parentheses if there is a subtree, then the right one. *)
Fixpoint show_paren (t : tree) : string :=
  match t with
  | Leaf => ""
  | Node d l r =>
      py_str d +:+
      match l, r with
      | Leaf, Leaf => ""
      | _, Leaf => "(" +:+ show_paren l +:+ ")"
      | _, _ => "(" +:+ show_paren l +:+ ")(" +:+ show_paren r +:+ ")"
      end
  end.

(** * Properties *)

(** ** Metrics *)

Lemma max_depth_nonneg t : 0 ≤ max_depth t.
Proof. induction t; simpl; [lia | case_bool_decide; lia]. Qed.

Lemma max_depth_max d l r :
  max_depth (Node d l r) = 1 + Z.max (max_depth l) (max_depth r).
Proof. simpl. case_bool_decide; lia. Qed.

(** The second component of [diameter_helper] is the depth, and the first
    lies between the depth and twice the depth minus one on a tree that has
    a node. *)
Lemma diameter_helper_bounds t :
  snd (diameter_helper t) = max_depth t ∧
  (t = Leaf → fst (diameter_helper t) = 0) ∧
  (t ≠ Leaf →
   max_depth t ≤ fst (diameter_helper t) ≤ 2 * max_depth t - 1).
Proof.
  induction t as [|d l IHl r IHr].
  - simpl. repeat split; congruence.
  - rewrite max_depth_max. simpl.
    destruct (diameter_helper l) as [ld lh], (diameter_helper r) as [rd rh].
    simpl in *.
    destruct IHl as (-> & Hl0 & Hl), IHr as (-> & Hr0 & Hr).
    pose proof (max_depth_nonneg l). pose proof (max_depth_nonneg r).
    split; [done|]. split; [congruence|]. intros _.
    destruct l, r; simpl in *;
      repeat match goal with
             | H : Leaf = Leaf → _ |- _ => specialize (H eq_refl)
             | H : Leaf ≠ Leaf → _ |- _ => clear H
             | H : Node _ _ _ = Leaf → _ |- _ => clear H
             | H : Node ?a ?b ?c ≠ Leaf → _ |- _ =>
                 specialize (H ltac:(congruence))
             end; lia.
Qed.

(** C7: on the empty tree [max_depth] returns 0, the balance check returns
    true and the diameter operation returns 0; the three are total
    functions, so none of them fails. *)
Theorem metrics_of_empty_tree :
  max_depth Leaf = 0 ∧ is_balanced_tree Leaf = true ∧ tree_diameter Leaf = 0.
Proof. repeat split. Qed.

(** C1, as stated, fails: on the tree built from [3,1,2,-1,-1,-1,-1] the
    diameter operation does not return 2. *)
Lemma scenario_diameter_is_not_2 :
  ¬ (∃ t, build_from_level_order (ints [3; 1; 2; -1; -1; -1; -1]) (VInt (-1)) = Returned t ∧
          t = tree_3_1_2 ∧ max_depth t = 2 ∧ is_balanced_tree t = true ∧
          tree_diameter t = 2).
Proof. intros (t & _ & -> & _ & _ & H). vm_compute in H. discriminate. Qed.

(** C1, amended: the level-order input [3,1,2,-1,-1,-1,-1] with null marker
    -1 builds root 3 with left leaf 1 and right leaf 2; on that tree
    [max_depth] returns 2, the balance check returns true and the diameter
    operation returns 3, the number of nodes on the longest path. *)
Theorem level_order_scenario :
  build_from_level_order (ints [3; 1; 2; -1; -1; -1; -1]) (VInt (-1)) = Returned tree_3_1_2 ∧
  max_depth tree_3_1_2 = 2 ∧
  is_balanced_tree tree_3_1_2 = true ∧
  tree_diameter tree_3_1_2 = 3.
Proof. repeat split; vm_compute; reflexivity. Qed.

(** C2, as stated, fails: the diameter operation does not return 0 on a
    single-node tree. *)
Lemma diameter_single_node_not_0 :
  tree_diameter (Node (VInt 7) Leaf Leaf) = 1 ∧
  ¬ (∀ d, tree_diameter (Node d Leaf Leaf) = 0).
Proof. split; [reflexivity | intros H; specialize (H (VInt 7)); discriminate]. Qed.

(** C2, amended: for every tree with at least 2 nodes, and in fact for
    every tree with at least 1 node, the diameter operation returns a value
    at least [max_depth] and at most [2 * max_depth - 1]; for every
    single-node tree it returns 1: the diameter counts the nodes, not the
    edges, of the longest path. *)
Theorem diameter_bound (t : tree) (H : (1 ≤ node_count t)%nat) :
  max_depth t ≤ tree_diameter t ≤ 2 * max_depth t - 1 ∧
  ∀ d, tree_diameter (Node d Leaf Leaf) = 1.
Proof.
  split; [|reflexivity].
  apply diameter_helper_bounds. destruct t; simpl in H; [lia | congruence].
Qed.

Lemma diameter_bound_witness :
  (1 ≤ node_count tree_3_1_2)%nat ∧
  (max_depth tree_3_1_2 ≤ tree_diameter tree_3_1_2 ≤ 2 * max_depth tree_3_1_2 - 1 ∧
   ∀ d, tree_diameter (Node d Leaf Leaf) = 1).
Proof.
  split; [simpl; lia | apply (diameter_bound tree_3_1_2); simpl; lia].
Defined.

(** ** The format detector *)

Lemma py_in_spec x l : py_in x l = true ↔ x ∈ l.
Proof.
  unfold py_in, py_eq. rewrite existsb_exists. split.
  - intros (y & Hy & Heq). apply bool_decide_eq_true in Heq as ->.
    by apply list_elem_of_In.
  - intros Hx. exists x. split; [by apply list_elem_of_In | by apply bool_decide_eq_true].
Qed.

Lemma py_in_false x l : py_in x l = false ↔ x ∉ l.
Proof. rewrite <- py_in_spec. by destruct (py_in x l). Qed.

(** [set(input_data) & set('()')] is non-empty exactly when the string has
    an opening or a closing parenthesis. *)
Lemma paren_set_spec s :
  (list_to_set (chars s) : gset ascii) ∩ list_to_set (chars "()") ≠ ∅ ↔
  "("%char ∈ chars s ∨ ")"%char ∈ chars s.
Proof.
  change (chars "()") with ["("%char; ")"%char]. split.
  - intros H. apply set_choose_L in H as [c Hc]. set_solver.
  - intros [H|H] Heq; set_solver.
Qed.

Lemma marker_test_spec input :
  match input with
  | InList l => py_in (VInt (-1)) l || py_in (VInt (-999)) l
  | _ => false
  end = true ↔ has_marker input.
Proof.
  unfold has_marker. destruct input as [l|s|].
  - rewrite orb_true_iff, !py_in_spec. split; [eauto|].
    by intros (l' & [= <-] & H).
  - split; [done | by intros (? & ? & _)].
  - split; [done | by intros (? & ? & _)].
Qed.

Lemma paren_test_spec input :
  match input with
  | InStr s =>
      bool_decide ((list_to_set (chars s) : gset ascii) ∩ list_to_set (chars "()") ≠ ∅)
  | _ => false
  end = true ↔ has_paren input.
Proof.
  unfold has_paren. destruct input as [l|s|].
  - split; [done | by intros (? & ? & _)].
  - rewrite bool_decide_eq_true, paren_set_spec. split; [eauto|].
    by intros (s' & [= <-] & H).
  - split; [done | by intros (? & ? & _)].
Qed.

Lemma has_marker_truthy input : has_marker input → truthy input = true.
Proof.
  intros (l & -> & H). simpl. destruct l; [|done].
  destruct H as [H|H]; by apply elem_of_nil in H.
Qed.

Lemma has_paren_truthy input : has_paren input → truthy input = true.
Proof.
  intros (s & -> & H). simpl. destruct s; [|done].
  destruct H as [H|H]; by apply elem_of_nil in H.
Qed.

Lemma has_marker_not_paren input : has_marker input → ¬ has_paren input.
Proof. intros (l & -> & _) (s & ? & _). done. Qed.

(** C5: the detector decides by first match and exactly one branch fires.
    It reports no format exactly for empty or absent input, [level_order]
    exactly for a list containing -1 or -999, [parenthesis] exactly for a
    string containing an opening or closing parenthesis, and [pre_order]
    exactly for every remaining non-empty input; it never returns
    [unknown]. *)
Theorem detect_input_format_first_match (input : input_data) :
  (detect_input_format input = None ↔ truthy input = false) ∧
  (detect_input_format input = Some "level_order" ↔ has_marker input) ∧
  (detect_input_format input = Some "parenthesis" ↔ has_paren input) ∧
  (detect_input_format input = Some "pre_order" ↔
     truthy input = true ∧ ¬ has_marker input ∧ ¬ has_paren input) ∧
  detect_input_format input ≠ Some "unknown".
Proof.
  pose proof (marker_test_spec input) as Hm.
  pose proof (paren_test_spec input) as Hp.
  pose proof (has_marker_truthy input) as Hmt.
  pose proof (has_paren_truthy input) as Hpt.
  pose proof (has_marker_not_paren input) as Hmp.
  unfold detect_input_format.
  destruct (truthy input); simpl.
  - destruct (match input with InList l => _ | _ => false end).
    + assert (has_marker input) by (by apply Hm). naive_solver.
    + assert (¬ has_marker input) by (intros ?%Hm; done).
      destruct (match input with InStr s => _ | _ => false end).
      * assert (has_paren input) by (by apply Hp). naive_solver.
      * assert (¬ has_paren input) by (intros ?%Hp; done). naive_solver.
  - assert (¬ has_marker input) by (intros ?%Hmt; done).
    assert (¬ has_paren input) by (intros ?%Hpt; done).
    naive_solver.
Qed.

(** The detector on the four inputs of the format-detector scenario. *)
Lemma detect_input_format_examples :
  detect_input_format (InList []) = None ∧
  detect_input_format (InList (ints [3; 1; 2; -1; -1; -1; -1])) = Some "level_order" ∧
  detect_input_format (InStr "1(2)(3)") = Some "parenthesis" ∧
  detect_input_format (InList (ints [5; 3; 8])) = Some "pre_order".
Proof. repeat split; vm_compute; reflexivity. Qed.

(** ** The dispatchers *)

Lemma problem_lookup_in_order :
  Problem.construction_methods !! "in_order" = None.
Proof. reflexivity. Qed.

Lemma problem_lookup_unknown (m : string) :
  m ∉ known_methods → Problem.construction_methods !! m = None.
Proof.
  unfold known_methods, Problem.construction_methods. intros Hm.
  rewrite !lookup_insert_ne by set_solver. apply lookup_empty.
Qed.

Lemma problemvar_lookup_unknown (m : string) :
  m ∉ known_methods → Problemvar.construction_methods !! m = None.
Proof.
  unfold known_methods, Problemvar.construction_methods. intros Hm.
  rewrite !lookup_insert_ne by set_solver. apply lookup_empty.
Qed.

(** C3, as stated, fails: with the format name [in_order] the dispatcher
    of [Problem.py] raises the unsupported-method error, not the
    insufficient-information one, and the dispatcher of [problemvar.py]
    does not fail: it returns [None] to its caller. *)
Lemma in_order_not_reported_as_insufficient :
  Problem.build_tree (InList (ints [2; 1; 3])) (Some "in_order")
    = Raised (ValueError "Unsupported construction method: in_order") ∧
  Problem.build_tree (InList (ints [2; 1; 3])) (Some "in_order")
    ≠ Raised insufficient_information ∧
  snd (Problemvar.build_tree (InList (ints [2; 1; 3])) (Some "in_order"))
    = Returned Leaf ∧
  snd (Problemvar.build_tree (InList (ints [2; 1; 3])) (Some "in_order"))
    ≠ Raised insufficient_information.
Proof. repeat split; done. Qed.

(** C3, amended: for every input, with the explicit format name [in_order]
    no dispatcher builds a node.  The dispatcher of [Problem.py] raises
    [ValueError("Unsupported construction method: in_order")] to its caller.
    In [problemvar.py] the in-order builder raises the
    insufficient-information error ([NotImplementedError]); its dispatcher
    catches the error, prints it after "Tree Construction Error: " and
    returns [None] to its caller. *)
Theorem in_order_dispatch (input : input_data) :
  Problem.build_tree input (Some "in_order")
    = Raised (ValueError "Unsupported construction method: in_order") ∧
  Problemvar.build_from_in_order input = Raised insufficient_information ∧
  Problemvar.dispatch input (Some "in_order") = Raised insufficient_information ∧
  Problemvar.build_tree input (Some "in_order")
    = (["Tree Construction Error: In-order reconstruction requires additional traversal info"],
       Returned Leaf).
Proof. repeat split. Qed.

(** C4, as stated, fails for the dispatcher of [problemvar.py]: an
    unrecognised format name is printed, and the caller gets [None] from a
    normal return instead of an error. *)
Lemma unsupported_method_not_raised_by_problemvar :
  ("bfs" ∉ known_methods) ∧
  Problemvar.build_tree (InList (ints [1; 2; 3])) (Some "bfs")
    = (["Tree Construction Error: Unsupported construction method: bfs"], Returned Leaf) ∧
  ¬ (∃ e, snd (Problemvar.build_tree (InList (ints [1; 2; 3])) (Some "bfs")) = Raised e).
Proof.
  split; [unfold known_methods; set_solver|].
  split; [reflexivity | by intros [e He]].
Qed.

(** C4, amended: for every input and every explicit format name outside
    level_order, pre_order, post_order, parenthesis and in_order, no node is
    built.  The dispatcher of [Problem.py] raises
    [ValueError("Unsupported construction method: <name>")] to its caller
    and returns nothing.  The dispatcher of [problemvar.py] raises the same
    error inside its [try] block, prints it after
    "Tree Construction Error: " and returns [None] to its caller. *)
Theorem unsupported_method_dispatch (input : input_data) (m : string)
    (Hm : m ∉ known_methods) :
  Problem.build_tree input (Some m)
    = Raised (ValueError ("Unsupported construction method: " +:+ m)) ∧
  Problemvar.dispatch input (Some m)
    = Raised (ValueError ("Unsupported construction method: " +:+ m)) ∧
  Problemvar.build_tree input (Some m)
    = (["Tree Construction Error: Unsupported construction method: " +:+ m],
       Returned Leaf).
Proof.
  unfold Problem.build_tree, Problemvar.build_tree, Problemvar.dispatch. simpl.
  rewrite (problem_lookup_unknown m Hm), (problemvar_lookup_unknown m Hm).
  repeat split.
Qed.

Lemma unsupported_method_dispatch_witness :
  ("bfs" ∉ known_methods) ∧
  (Problem.build_tree (InStr "1(2)(3)") (Some "bfs")
     = Raised (ValueError ("Unsupported construction method: " +:+ "bfs")) ∧
   Problemvar.dispatch (InStr "1(2)(3)") (Some "bfs")
     = Raised (ValueError ("Unsupported construction method: " +:+ "bfs")) ∧
   Problemvar.build_tree (InStr "1(2)(3)") (Some "bfs")
     = (["Tree Construction Error: Unsupported construction method: " +:+ "bfs"],
        Returned Leaf)).
Proof.
  assert (H : "bfs" ∉ known_methods) by (unfold known_methods; set_solver).
  split; [exact H | exact (unsupported_method_dispatch (InStr "1(2)(3)") "bfs" H)].
Defined.

(** ** Pre-order and post-order lists *)

Lemma left_chain_count xs : node_count (left_chain xs) = length xs.
Proof. induction xs; simpl; [done | lia]. Qed.

Lemma right_chain_count xs : node_count (right_chain xs) = length xs.
Proof. induction xs; simpl; [done | lia]. Qed.

Lemma left_chain_preorder xs : preorder (left_chain xs) = xs.
Proof. induction xs; simpl; [done | by rewrite app_nil_r, IHxs]. Qed.

Lemma right_chain_preorder xs : preorder (right_chain xs) = xs.
Proof. induction xs; simpl; [done | by rewrite IHxs]. Qed.

(** A call of the pre-order [build_recursive] with the cursor at [i] builds
    the left chain of the values from [i] on and leaves the cursor at the
    end of the list. *)
Lemma build_recursive_pre_chain (xs : list value) (fuel i : nat) :
  (length xs - i < fuel)%nat →
  build_recursive_pre xs fuel i
    = Returned (left_chain (drop i xs), Nat.max i (length xs)).
Proof.
  revert i. induction fuel as [|fuel IH]; intros i Hf; [lia|].
  simpl. unfold cbind at 1, cget. case_bool_decide as Hi.
  - rewrite drop_ge by lia. unfold cret. simpl. do 2 f_equal. lia.
  - destruct (lookup_lt_is_Some_2 xs i ltac:(lia)) as [x Hx]. rewrite Hx.
    unfold cbind at 1, cput. unfold cbind at 1.
    rewrite IH by lia. unfold cbind at 1.
    rewrite IH by lia. unfold cret.
    rewrite (drop_ge xs (Nat.max _ _)) by lia.
    rewrite (drop_S xs x i Hx). simpl.
    replace (i + 1)%nat with (S i) by lia. do 2 f_equal; lia.
Qed.

(** A call of the post-order [build_recursive] with [k] values left before
    the cursor builds the right chain of those values, last first, and
    leaves the cursor at -1. *)
Lemma build_recursive_post_chain (xs : list value) (fuel k : nat) :
  (k ≤ length xs)%nat → (k < fuel)%nat →
  build_recursive_post xs fuel (Z.of_nat k - 1)
    = Returned (right_chain (rev (take k xs)), -1).
Proof.
  revert k. induction fuel as [|fuel IH]; intros k Hk Hf; [lia|].
  simpl. unfold cbind at 1, cget. case_bool_decide as Hi.
  - assert (k = 0%nat) as -> by lia. done.
  - destruct k as [|k]; [lia|].
    replace (Z.to_nat (Z.of_nat (S k) - 1)) with k by lia.
    destruct (lookup_lt_is_Some_2 xs k ltac:(lia)) as [x Hx]. rewrite Hx.
    unfold cbind at 1, cput. unfold cbind at 1.
    replace (Z.of_nat (S k) - 1 - 1) with (Z.of_nat k - 1) by lia.
    rewrite IH by lia. unfold cbind at 1.
    pose proof (IH 0%nat ltac:(lia) ltac:(lia)) as IH0.
    change (Z.of_nat 0 - 1) with (-1) in IH0. rewrite IH0. unfold cret. simpl.
    rewrite (take_S_r xs k x Hx), rev_app_distr. done.
Qed.

(** C8: pre-order reconstruction of [1,2,4,5,3] returns one fixed tree, the
    chain 1, 2, 4, 5, 3 linked through left children; it has 5 nodes, as many
    as the input has values, and its root, left, right traversal is the
    input.  The builder is a function of its input, so every invocation
    returns this tree. *)
Theorem pre_order_scenario :
  build_from_pre_order (ints [1; 2; 4; 5; 3])
    = Returned
        (Node (VInt 1)
           (Node (VInt 2)
              (Node (VInt 4)
                 (Node (VInt 5) (Node (VInt 3) Leaf Leaf) Leaf)
                 Leaf)
              Leaf)
           Leaf) ∧
  (∀ t, build_from_pre_order (ints [1; 2; 4; 5; 3]) = Returned t →
        node_count t = 5%nat ∧ preorder t = ints [1; 2; 4; 5; 3]).
Proof.
  split; [vm_compute; reflexivity|].
  intros t Ht. vm_compute in Ht. injection Ht as <-. split; reflexivity.
Qed.

(** C9: for every non-empty list [xs], [build_from_pre_order] returns the
    left chain of [xs] (the i-th node from the root holds [xs[i]], every
    right child is absent, as many nodes as values), and
    [build_from_post_order] returns the right chain of [xs] reversed (the
    root holds the last value, every left child is absent). *)
Theorem pre_post_order_chains (xs : list value) (Hxs : xs ≠ []) :
  build_from_pre_order xs = Returned (left_chain xs) ∧
  node_count (left_chain xs) = length xs ∧
  build_from_post_order xs = Returned (right_chain (rev xs)) ∧
  node_count (right_chain (rev xs)) = length xs.
Proof.
  unfold build_from_pre_order, build_from_post_order, crun.
  rewrite !bool_decide_eq_false_2 by done.
  rewrite build_recursive_pre_chain by lia.
  rewrite build_recursive_post_chain by lia.
  rewrite firstn_all, left_chain_count, right_chain_count, length_rev.
  done.
Qed.

Lemma pre_post_order_chains_witness :
  ints [7; 8; 9] ≠ [] ∧
  (build_from_pre_order (ints [7; 8; 9]) = Returned (left_chain (ints [7; 8; 9])) ∧
   node_count (left_chain (ints [7; 8; 9])) = length (ints [7; 8; 9]) ∧
   build_from_post_order (ints [7; 8; 9]) = Returned (right_chain (rev (ints [7; 8; 9]))) ∧
   node_count (right_chain (rev (ints [7; 8; 9]))) = length (ints [7; 8; 9])).
Proof.
  assert (H : ints [7; 8; 9] ≠ []) by (simpl; discriminate).
  split; [exact H | exact (pre_post_order_chains (ints [7; 8; 9]) H)].
Defined.

(** ** The level-order builders *)

(** *** Stores built by the loop *)

Lemma wf_new_node h d : wf_store h → wf_store (new_node h d).1.
Proof.
  intros Hwf p n Hp. simpl in Hp. unfold link_ok. simpl. rewrite length_app. simpl.
  apply lookup_snoc_Some in Hp as [[Hlt Hp]|[-> <-]].
  - destruct (Hwf p n Hp) as [Hl Hr].
    split; intros c Hc; [specialize (Hl c Hc) | specialize (Hr c Hc)]; lia.
  - split; intros c Hc; done.
Qed.

Lemma wf_set_left h p c :
  wf_store h → (p < c < length h)%nat → wf_store (set_left h p c).
Proof.
  intros Hwf Hpc q n Hq. unfold set_left, link_ok in *. rewrite length_alter.
  destruct (decide (p = q)) as [->|Hne].
  - rewrite list_lookup_alter_eq in Hq.
    destruct (h !! q) as [m|] eqn:Hm; simplify_eq/=.
    destruct (Hwf q m Hm) as [Hl Hr].
    split; intros c' Hc'; [by simplify_eq | by apply Hr].
  - rewrite list_lookup_alter_ne in Hq by done. exact (Hwf q n Hq).
Qed.

Lemma wf_set_right h p c :
  wf_store h → (p < c < length h)%nat → wf_store (set_right h p c).
Proof.
  intros Hwf Hpc q n Hq. unfold set_right, link_ok in *. rewrite length_alter.
  destruct (decide (p = q)) as [->|Hne].
  - rewrite list_lookup_alter_eq in Hq.
    destruct (h !! q) as [m|] eqn:Hm; simplify_eq/=.
    destruct (Hwf q m Hm) as [Hl Hr].
    split; intros c' Hc'; [by apply Hl | by simplify_eq].
  - rewrite list_lookup_alter_ne in Hq by done. exact (Hwf q n Hq).
Qed.

Section loop_facts.
Variable is_null : value → bool.
Variable xs : list value.

Lemma attach_child_inv set_child current i h queue h' queue' :
  (∀ h0 p c, wf_store h0 → (p < c < length h0)%nat →
             wf_store (set_child h0 p c) ∧ length (set_child h0 p c) = length h0) →
  wf_store h → (current < length h)%nat →
  Forall (λ p, p < length h)%nat queue →
  attach_child is_null xs set_child current i (h, queue) = (h', queue') →
  wf_store h' ∧ (length h ≤ length h')%nat ∧
  Forall (λ p, p < length h')%nat queue'.
Proof.
  intros Hset Hwf Hcur Hq Hattach. unfold attach_child in Hattach.
  destruct (xs !! i) as [x|]; [|by simplify_eq].
  destruct (is_null x); [by simplify_eq|].
  simpl in Hattach. injection Hattach as <- <-.
  destruct (Hset (h ++ [TreeNode.mk x None None]) current (length h)) as [Hwf' Hlen].
  { apply (wf_new_node h x Hwf). }
  { rewrite length_app. simpl. lia. }
  rewrite Hlen, length_app. simpl. split; [done|]. split; [lia|].
  apply Forall_app. split.
  - eapply Forall_impl; [exact Hq|]. simpl. lia.
  - repeat constructor. lia.
Qed.

(** The loop ends within [len(level_order)] rounds, on a store whose
    links all point forward. *)
Lemma level_order_loop_total fuel h queue i :
  wf_store h → Forall (λ p, p < length h)%nat queue →
  (length xs ≤ i + fuel)%nat →
  ∃ h', level_order_loop is_null xs fuel h queue i = Some h' ∧
        wf_store h' ∧ (length h ≤ length h')%nat.
Proof.
  revert h queue i. induction fuel as [|fuel IH]; intros h queue i Hwf Hq Hfuel.
  - destruct queue as [|current queue]; cbn [level_order_loop]; [by eauto|].
    rewrite bool_decide_eq_false_2 by lia. by eauto.
  - destruct queue as [|current queue]; cbn [level_order_loop]; [by eauto|].
    case_bool_decide; [|by eauto].
    apply Forall_cons in Hq as [Hcur Hq].
    assert (Hl : ∀ h0 p c, wf_store h0 → (p < c < length h0)%nat →
              wf_store (set_left h0 p c) ∧ length (set_left h0 p c) = length h0).
    { intros h0 p c ??. split; [by apply wf_set_left | apply length_alter]. }
    assert (Hr : ∀ h0 p c, wf_store h0 → (p < c < length h0)%nat →
              wf_store (set_right h0 p c) ∧ length (set_right h0 p c) = length h0).
    { intros h0 p c ??. split; [by apply wf_set_right | apply length_alter]. }
    destruct (attach_child is_null xs set_left current i (h, queue))
      as [h1 q1] eqn:E1.
    destruct (attach_child_inv set_left current i h queue h1 q1 Hl Hwf Hcur Hq E1)
      as (Hwf1 & Hlen1 & Hq1).
    destruct (attach_child is_null xs set_right current (i + 1) (h1, q1))
      as [h2 q2] eqn:E2.
    destruct (attach_child_inv set_right current (i + 1) h1 q1 h2 q2 Hr Hwf1
                ltac:(lia) Hq1 E2) as (Hwf2 & Hlen2 & Hq2).
    destruct (IH h2 q2 (i + 1 + 1)%nat Hwf2 Hq2 ltac:(lia)) as (h' & Hloop & Hwf' & Hlen').
    exists h'. split; [done|]. split; [done | lia].
Qed.
End loop_facts.

(** Reading a store whose links point forward succeeds with as much fuel
    as there are nodes from the reference on. *)
Lemma read_tree_total h fuel ref :
  wf_store h →
  (∀ p, ref = Some p → (p < length h ∧ length h - p ≤ fuel)%nat) →
  is_Some (read_tree fuel h ref).
Proof.
  intros Hwf. revert ref. induction fuel as [|fuel IH]; intros [p|] Href; simpl; eauto.
  - destruct (Href p eq_refl). lia.
  - destruct (Href p eq_refl) as [Hp Hfuel].
    destruct (lookup_lt_is_Some_2 h p Hp) as [n Hn]. rewrite Hn. simpl.
    destruct (Hwf p n Hn) as [Hl Hr].
    destruct (IH (TreeNode.left n)) as [l ->].
    { intros c Hc. specialize (Hl c Hc). lia. }
    destruct (IH (TreeNode.right n)) as [r ->].
    { intros c Hc. specialize (Hr c Hc). lia. }
    simpl. eauto.
Qed.

(** From the creation of the root on, a level-order builder returns a
    tree. *)
Lemma level_order_from_root_total is_null xs x0 :
  ∃ t, level_order_from_root is_null xs x0 = Returned t.
Proof.
  unfold level_order_from_root. simpl.
  destruct (level_order_loop_total is_null xs (length xs)
              [TreeNode.mk x0 None None] [0%nat] 1%nat) as (h' & -> & Hwf & Hlen).
  - intros [|p] n Hp; simplify_eq/=. split; intros c Hc; done.
  - repeat constructor.
  - lia.
  - simpl in Hlen. unfold returned_tree.
    destruct (read_tree_total h' (length h') (Some 0%nat) Hwf) as [t ->]; [|by eauto].
    intros p [= <-]. lia.
Qed.

(** The loop looks at the null test only on the values of the list. *)
Lemma level_order_loop_ext f g xs fuel h queue i :
  (∀ x, x ∈ xs → f x = g x) →
  level_order_loop f xs fuel h queue i = level_order_loop g xs fuel h queue i.
Proof.
  intros Hfg.
  assert (Hattach : ∀ set_child current j st,
    attach_child f xs set_child current j st = attach_child g xs set_child current j st).
  { intros set_child current j [h0 q0]. unfold attach_child.
    destruct (xs !! j) as [x|] eqn:Hx; [|done].
    by rewrite (Hfg x) by (by eapply list_elem_of_lookup_2). }
  revert h queue i. induction fuel as [|fuel IH]; intros h queue i; [done|].
  destruct queue as [|current queue]; cbn [level_order_loop]; [done|].
  case_bool_decide; [|done].
  rewrite Hattach.
  destruct (attach_child g xs set_left current i (h, queue)) as [h1 q1].
  rewrite Hattach.
  destruct (attach_child g xs set_right current (i + 1) (h1, q1)) as [h2 q2].
  apply IH.
Qed.

(** On a value that is neither -999 nor [None], membership in the default
    marker set is equality with -1. *)
Lemma null_tests_agree x :
  x ≠ VInt (-999) → x ≠ VNone →
  py_in x LevelOrderTreeConstructor.default_null_markers = py_eq x (VInt (-1)).
Proof.
  intros H1 H2. unfold py_in, py_eq. simpl.
  repeat case_bool_decide; simplify_eq; done.
Qed.

(** C10, as stated, fails: on [-1, 5] the builder of [Problem.py] returns
    the empty tree while that of [firtst1.py] pops the leading marker off
    the caller's list and returns the single node 5; on [1, -999] the first
    hangs -999 below the root and the second takes it for a null marker. *)
Lemma level_order_builders_differ :
  build_from_level_order (ints [-1; 5]) (VInt (-1)) = Returned Leaf ∧
  LevelOrderTreeConstructor.build_tree (ints [-1; 5]) None
    = (ints [5], Returned (Node (VInt 5) Leaf Leaf)) ∧
  build_from_level_order (ints [1; -999]) (VInt (-1))
    = Returned (Node (VInt 1) (Node (VInt (-999)) Leaf Leaf) Leaf) ∧
  LevelOrderTreeConstructor.build_tree (ints [1; -999]) None
    = (ints [1; -999], Returned (Node (VInt 1) Leaf Leaf)) ∧
  ¬ (∀ xs, LevelOrderTreeConstructor.build_tree xs None
             = (xs, build_from_level_order xs (VInt (-1)))).
Proof.
  repeat split; try (vm_compute; reflexivity).
  intros H. specialize (H (ints [-1; 5])). vm_compute in H. discriminate.
Qed.

(** C10, amended: for every list that holds neither -999 nor [None] and
    that does not start with -1 unless all its values are -1,
    [build_from_level_order] with null marker -1 and
    [LevelOrderTreeConstructor.build_tree] with the default null markers
    return the same tree, and the caller's list is left as it was. *)
Theorem level_order_builders_agree (xs : list value)
    (Hplain : ∀ x, x ∈ xs → x ≠ VInt (-999) ∧ x ≠ VNone)
    (Hhead : head xs ≠ Some (VInt (-1)) ∨ Forall (λ x, x = VInt (-1)) xs) :
  ∃ t, build_from_level_order xs (VInt (-1)) = Returned t ∧
       LevelOrderTreeConstructor.build_tree xs None = (xs, Returned t).
Proof.
  destruct xs as [|x0 rest]; [by exists Leaf|].
  assert (Hnull : ∀ x, x ∈ x0 :: rest →
            py_in x LevelOrderTreeConstructor.default_null_markers = py_eq x (VInt (-1))).
  { intros x Hx. destruct (Hplain x Hx). by apply null_tests_agree. }
  unfold build_from_level_order, LevelOrderTreeConstructor.build_tree.
  cbn [default]. rewrite bool_decide_eq_false_2 by done. cbn [orb].
  destruct (decide (x0 = VInt (-1))) as [->|Hx0].
  - destruct Hhead as [Hhd|Hall]; [done|]. exists Leaf.
    change (py_eq (VInt (-1)) (VInt (-1))) with true. cbn [negb].
    replace (forallb _ (VInt (-1) :: rest)) with true; [done|].
    symmetry. apply forallb_forall. intros x Hx%list_elem_of_In.
    rewrite Forall_forall in Hall. by rewrite (Hall x Hx).
  - assert (Hf : py_eq x0 (VInt (-1)) = false)
      by (unfold py_eq; by apply bool_decide_eq_false_2).
    rewrite Hf. cbn [forallb LevelOrderTreeConstructor.pop_leading].
    rewrite (Hnull x0) by apply list_elem_of_here. rewrite Hf. cbn [andb].
    destruct (level_order_from_root_total (λ x, py_eq x (VInt (-1))) (x0 :: rest) x0)
      as [t Ht].
    exists t. split; [done|]. f_equal. rewrite <- Ht.
    unfold level_order_from_root. cbn [new_node].
    by rewrite (level_order_loop_ext _ (λ x, py_eq x (VInt (-1))) (x0 :: rest)).
Qed.

Lemma level_order_builders_agree_witness :
  (∀ x, x ∈ ints [3; 1; 2; -1; -1; -1; -1] → x ≠ VInt (-999) ∧ x ≠ VNone) ∧
  (head (ints [3; 1; 2; -1; -1; -1; -1]) ≠ Some (VInt (-1)) ∨
   Forall (λ x, x = VInt (-1)) (ints [3; 1; 2; -1; -1; -1; -1])) ∧
  ∃ t, build_from_level_order (ints [3; 1; 2; -1; -1; -1; -1]) (VInt (-1)) = Returned t ∧
       LevelOrderTreeConstructor.build_tree (ints [3; 1; 2; -1; -1; -1; -1]) None
         = (ints [3; 1; 2; -1; -1; -1; -1], Returned t).
Proof.
  assert (H1 : ∀ x, x ∈ ints [3; 1; 2; -1; -1; -1; -1] → x ≠ VInt (-999) ∧ x ≠ VNone).
  { intros x Hx. simpl in Hx. set_solver. }
  assert (H2 : head (ints [3; 1; 2; -1; -1; -1; -1]) ≠ Some (VInt (-1)) ∨
               Forall (λ x, x = VInt (-1)) (ints [3; 1; 2; -1; -1; -1; -1])).
  { left. simpl. discriminate. }
  split; [exact H1|]. split; [exact H2|].
  exact (level_order_builders_agree (ints [3; 1; 2; -1; -1; -1; -1]) H1 H2).
Defined.

(** ** Parenthesis text *)

Lemma parse_tree_step s fuel i :
  parse_tree s (S fuel) i =
    match py_int (token s i) with
    | None => Raised (invalid_literal (token s i))
    | Some v =>
        match group s (parse_tree s fuel) (token_end s i) with
        | Returned (l, j) =>
            match group s (parse_tree s fuel) j with
            | Returned (r, k) => Returned (Node (VInt v) l r, k)
            | Raised e => Raised e
            | OutOfFuel => OutOfFuel
            end
        | Raised e => Raised e
        | OutOfFuel => OutOfFuel
        end
    end.
Proof.
  cbn [parse_tree]. unfold cbind, cget, cput, cret, craise, group, token, token_end.
  destruct (py_int _) as [v|]; [|done]. cbv beta.
  destruct (at_open s _) eqn:Hopen; cbv beta; [|by rewrite Hopen].
  destruct (parse_tree s fuel _) as [[l j]| |]; [|done..]. cbv beta.
  destruct (at_open s (j + 1)); cbv beta; [|done].
  by destruct (parse_tree s fuel _) as [[r k]| |].
Qed.

Lemma scan_value_ge s n i : (i ≤ scan_value s n i)%nat.
Proof.
  revert i. induction n as [|n IH]; intros i; simpl; [lia|].
  destruct (chars s !! i); [|lia].
  destruct (_ || _); [|lia]. specialize (IH (i + 1)%nat). lia.
Qed.

Lemma at_open_lt s i : at_open s i = true → (i < length (chars s))%nat.
Proof.
  unfold at_open. intros H%bool_decide_eq_true. by eapply lookup_lt_Some.
Qed.

Lemma group_within_fuel s p i :
  (∀ i', (i < i' ≤ length (chars s))%nat → within_fuel i' (p i')) →
  within_fuel i (group s p i).
Proof.
  intros Hp. unfold group. destruct (at_open s i) eqn:Hopen; [|simpl; lia].
  apply at_open_lt in Hopen. specialize (Hp (i + 1)%nat ltac:(lia)).
  destruct (p (i + 1)%nat) as [[t j]| |]; simpl in *; [lia | done | done].
Qed.

(** Every nested call starts after an opening parenthesis, so a fuel of
    one more than the characters left is never used up. *)
Lemma parse_tree_within_fuel s fuel i :
  (i ≤ length (chars s) < i + fuel)%nat →
  within_fuel i (parse_tree s fuel i).
Proof.
  revert i. induction fuel as [|fuel IH]; intros i Hi; [lia|].
  rewrite parse_tree_step.
  destruct (py_int (token s i)) as [v|]; [|by eexists].
  pose proof (scan_value_ge s (length (chars s) - i) i) as Hend.
  fold (token_end s i) in Hend.
  pose proof (group_within_fuel s (parse_tree s fuel) (token_end s i)) as Hl.
  destruct (group s (parse_tree s fuel) (token_end s i)) as [[l j]| |].
  - pose proof (group_within_fuel s (parse_tree s fuel) j) as Hr.
    assert (token_end s i ≤ j)%nat as Hj.
    { apply Hl. intros i' Hi'. apply IH. lia. }
    destruct (group s (parse_tree s fuel) j) as [[r k]| |].
    + assert (j ≤ k)%nat; [|simpl; lia].
      apply Hr. intros i' Hi'. apply IH. lia.
    + apply Hr. intros i' Hi'. apply IH. lia.
    + apply Hr. intros i' Hi'. apply IH. lia.
  - apply Hl. intros i' Hi'. apply IH. lia.
  - apply Hl. intros i' Hi'. apply IH. lia.
Qed.

(** More fuel does not change a result reached within the fuel. *)
Lemma group_more_fuel s p p' i r :
  (∀ i' r', p i' = r' → r' ≠ OutOfFuel → p' i' = r') →
  group s p i = r → r ≠ OutOfFuel → group s p' i = r.
Proof.
  intros Hp. unfold group. destruct (at_open s i); [|done].
  destruct (p (i + 1)%nat) as [[t j]| |] eqn:E; intros <- Hr;
    [by rewrite (Hp _ _ E) | by rewrite (Hp _ _ E) | done].
Qed.

Lemma parse_tree_more_fuel s fuel fuel' i r :
  (fuel ≤ fuel')%nat →
  parse_tree s fuel i = r → r ≠ OutOfFuel → parse_tree s fuel' i = r.
Proof.
  revert fuel' i r. induction fuel as [|fuel IH]; intros fuel' i r Hle Hr Hne.
  { simpl in Hr. by subst. }
  destruct fuel' as [|fuel']; [lia|].
  rewrite parse_tree_step in Hr |- *.
  destruct (py_int (token s i)) as [v|]; [|done].
  assert (Hg : ∀ j r', group s (parse_tree s fuel) j = r' → r' ≠ OutOfFuel →
                       group s (parse_tree s fuel') j = r').
  { intros j r'. apply group_more_fuel. intros i' r''. apply IH. lia. }
  destruct (group s (parse_tree s fuel) (token_end s i)) as [[l j]| |] eqn:E1.
  - rewrite (Hg _ _ E1) by done.
    destruct (group s (parse_tree s fuel) j) as [[t k]| |] eqn:E2.
    + by rewrite (Hg _ _ E2).
    + by rewrite (Hg _ _ E2).
    + by subst.
  - by rewrite (Hg _ _ E1).
  - by subst.
Qed.

(** An exception raised by a nested call reaches the outermost call. *)
Lemma reads_at_propagates s i :
  reads_at s i →
  ∀ e fuel, parse_tree s fuel i = Raised e →
  ∃ fuel', parse_tree s fuel' 0%nat = Raised e.
Proof.
  induction 1 as [|i v Hi IH Hv Hopen|i v fuel0 l j Hi IH Hv Hleft Hopen];
    intros e fuel He.
  - eauto.
  - apply (IH e (S fuel)). rewrite parse_tree_step, Hv. unfold group.
    by rewrite Hopen, He.
  - apply (IH e (S (fuel0 `max` fuel))). rewrite parse_tree_step, Hv.
    assert (Hleft' : group s (parse_tree s (fuel0 `max` fuel)) (token_end s i)
                     = Returned (l, j)).
    { apply (group_more_fuel s (parse_tree s fuel0)); [|done..].
      intros i' r'. apply parse_tree_more_fuel. lia. }
    rewrite Hleft'. unfold group. rewrite Hopen.
    by rewrite (parse_tree_more_fuel s fuel (fuel0 `max` fuel) _ _ ltac:(lia) He).
Qed.

(** The parenthesis builder returns a tree or raises a parse failure. *)
Lemma build_from_parenthesis_total s :
  match build_from_parenthesis s with
  | Returned _ => True
  | Raised e => parse_failure e
  | OutOfFuel => False
  end.
Proof.
  unfold build_from_parenthesis, crun. case_bool_decide; [done|].
  pose proof (parse_tree_within_fuel s (S (length (chars s))) 0%nat ltac:(lia)) as Hfuel.
  by destruct (parse_tree s (S (length (chars s))) 0%nat) as [[t j]| |].
Qed.

(** C6, as stated, fails: text with an opening parenthesis never closed,
    with a closing parenthesis too many, or with letters after the digits of
    a value, comes back as a tree and no failure is reported. *)
Lemma malformed_text_returns_tree :
  balanced "1(2" = false ∧
  build_from_parenthesis "1(2" = Returned (Node (VInt 1) (Node (VInt 2) Leaf Leaf) Leaf) ∧
  balanced "1(2))" = false ∧
  build_from_parenthesis "1(2))" = Returned (Node (VInt 1) (Node (VInt 2) Leaf Leaf) Leaf) ∧
  build_from_parenthesis "1(2x)" = Returned (Node (VInt 1) (Node (VInt 2) Leaf Leaf) Leaf).
Proof. repeat split; vm_compute; reflexivity. Qed.

(** C6, amended: for every non-empty input, if the text at a position
    where the parser reads a node value (the start of the input, or the
    character after an opening parenthesis that follows a node value or that
    node's first group) is not an integer literal, an optional minus sign
    followed by at least one digit, then the parenthesis reconstruction
    raises [ValueError] for that text and returns no tree. *)
Theorem parenthesis_value_failure (s : string) (i : nat)
    (Hs : s ≠ "") (Hreads : reads_at s i) (Htok : py_int (token s i) = None) :
  build_from_parenthesis s = Raised (invalid_literal (token s i)).
Proof.
  destruct (reads_at_propagates s i Hreads (invalid_literal (token s i)) 1%nat)
    as [fuel Hfuel].
  { by rewrite parse_tree_step, Htok. }
  unfold build_from_parenthesis, crun. rewrite bool_decide_eq_false_2 by done.
  pose proof (parse_tree_within_fuel s (S (length (chars s))) 0%nat ltac:(lia)) as Htop.
  set (top := S (length (chars s))) in *.
  assert (parse_tree s (top `max` fuel) 0%nat = Raised (invalid_literal (token s i))) as Hmax.
  { by apply (parse_tree_more_fuel s fuel); [lia|..]. }
  destruct (parse_tree s top 0%nat) as [[t j]|e|] eqn:E; [| |done].
  - rewrite (parse_tree_more_fuel s top (top `max` fuel) _ _ ltac:(lia) E) in Hmax; done.
  - rewrite (parse_tree_more_fuel s top (top `max` fuel) _ _ ltac:(lia) E) in Hmax by done.
    by injection Hmax as ->.
Qed.

Lemma parenthesis_value_failure_witness :
  "1(2)(x)" ≠ "" ∧ reads_at "1(2)(x)" 5 ∧ py_int (token "1(2)(x)" 5) = None ∧
  build_from_parenthesis "1(2)(x)" = Raised (invalid_literal (token "1(2)(x)" 5)).
Proof.
  assert (Hs : "1(2)(x)" ≠ "") by discriminate.
  assert (Hreads : reads_at "1(2)(x)" 5).
  { apply (reads_right "1(2)(x)" 0 1 1 (Node (VInt 2) Leaf Leaf) 4 (reads_root _));
      reflexivity. }
  assert (Htok : py_int (token "1(2)(x)" 5) = None) by reflexivity.
  split; [exact Hs|]. split; [exact Hreads|]. split; [exact Htok|].
  exact (parenthesis_value_failure "1(2)(x)" 5 Hs Hreads Htok).
Defined.

(** * Further properties *)

(** ** The level-order builders: what the tree holds *)

Lemma set_left_link_setter : link_setter set_left.
Proof.
  intros h p c q. unfold set_left. rewrite list_lookup_alter.
  case_decide as Hpq; [subst q | split; by eauto].
  destruct (h !! p) as [n|]; simpl; [|by split; intros ? [=]].
  split; [intros n' [= <-] | intros n0 [= <-]]; by eauto.
Qed.

Lemma set_right_link_setter : link_setter set_right.
Proof.
  intros h p c q. unfold set_right. rewrite list_lookup_alter.
  case_decide as Hpq; [subst q | split; by eauto].
  destruct (h !! p) as [n|]; simpl; [|by split; intros ? [=]].
  split; [intros n' [= <-] | intros n0 [= <-]]; by eauto.
Qed.

Lemma grows_refl is_null xs h : grows is_null xs h h.
Proof. split; intros p n Hp; eauto. Qed.

Lemma grows_trans is_null xs h1 h2 h3 :
  grows is_null xs h1 h2 → grows is_null xs h2 h3 → grows is_null xs h1 h3.
Proof.
  intros [Hk12 Hn12] [Hk23 Hn23]. split.
  - intros p n Hp. destruct (Hk12 p n Hp) as (n2 & Hp2 & Hd2).
    destruct (Hk23 p n2 Hp2) as (n3 & Hp3 & Hd3). exists n3. split; [done | congruence].
  - intros p n3 Hp3. destruct (Hn23 p n3 Hp3) as [[n2 Hp2]|Hnew]; [|by right].
    destruct (Hk23 p n2 Hp2) as (n3' & Hp3' & Hd3). simplify_eq.
    destruct (Hn12 p n2 Hp2) as [Hold|Hnew]; [by left|]. right. by rewrite Hd3.
Qed.

Section loop_values.
Variable is_null : value → bool.
Variable xs : list value.

Lemma attach_child_grows set_child current i h queue h' queue' :
  link_setter set_child →
  attach_child is_null xs set_child current i (h, queue) = (h', queue') →
  grows is_null xs h h'.
Proof.
  intros Hset Hattach. unfold attach_child in Hattach.
  destruct (xs !! i) as [x|] eqn:Hx; [|simplify_eq; apply grows_refl].
  destruct (is_null x) eqn:Hnull; [simplify_eq; apply grows_refl|].
  simpl in Hattach. injection Hattach as <- <-. split.
  - intros p n Hp.
    apply (Hset (h ++ [TreeNode.mk x None None]) current (length h) p).
    rewrite lookup_app_l; [done|]. by eapply lookup_lt_Some.
  - intros p n' Hp'.
    apply (Hset (h ++ [TreeNode.mk x None None]) current (length h) p) in Hp'
      as (n & Hp & Hd).
    apply lookup_snoc_Some in Hp as [[_ Hp]|[_ <-]]; [by eauto|].
    right. rewrite Hd. simpl. split; [by eapply list_elem_of_lookup_2 | done].
Qed.

Lemma level_order_loop_grows fuel h queue i h' :
  level_order_loop is_null xs fuel h queue i = Some h' →
  grows is_null xs h h'.
Proof.
  revert h queue i. induction fuel as [|fuel IH]; intros h queue i.
  - destruct queue as [|current queue]; cbn [level_order_loop].
    + intros [= <-]. apply grows_refl.
    + case_bool_decide; [done|]. intros [= <-]. apply grows_refl.
  - destruct queue as [|current queue]; cbn [level_order_loop].
    { intros [= <-]. apply grows_refl. }
    case_bool_decide; [|intros [= <-]; apply grows_refl].
    destruct (attach_child is_null xs set_left current i (h, queue))
      as [h1 q1] eqn:E1.
    destruct (attach_child is_null xs set_right current (i + 1) (h1, q1))
      as [h2 q2] eqn:E2.
    intros Hloop.
    eapply grows_trans; [|eapply grows_trans]; [| |by eapply IH].
    + eapply attach_child_grows; [apply set_left_link_setter | done].
    + eapply attach_child_grows; [apply set_right_link_setter | done].
Qed.
End loop_values.

(** Every value of a tree read from a store is the data of a node of the
    store. *)
Lemma read_tree_values fuel h ref t :
  read_tree fuel h ref = Some t →
  ∀ v, v ∈ preorder t → ∃ p n, h !! p = Some n ∧ TreeNode.data n = v.
Proof.
  revert ref t. induction fuel as [|fuel IH]; intros [p|] t; simpl;
    try (intros [= <-] v Hv; by apply elem_of_nil in Hv); try done.
  destruct (h !! p) as [n|] eqn:Hn; simpl; [|done].
  destruct (read_tree fuel h (TreeNode.left n)) as [l|] eqn:Hl; simpl; [|done].
  destruct (read_tree fuel h (TreeNode.right n)) as [r|] eqn:Hr; simpl; [|done].
  intros [= <-] v Hv. simpl in Hv.
  apply elem_of_cons in Hv as [->|Hv]; [by eauto|].
  apply elem_of_app in Hv as [Hv|Hv]; [by eapply (IH _ l) | by eapply (IH _ r)].
Qed.

(** From the creation of the root on, a level-order builder returns a tree
    whose root holds the first value and all of whose values are values of
    the list that are not null markers. *)
Lemma level_order_from_root_spec is_null xs x0 :
  x0 ∈ xs → is_null x0 = false →
  ∃ l r, level_order_from_root is_null xs x0 = Returned (Node x0 l r) ∧
         ∀ v, v ∈ preorder (Node x0 l r) → v ∈ xs ∧ is_null v = false.
Proof.
  intros Hx0 Hnull0. unfold level_order_from_root. simpl.
  destruct (level_order_loop_total is_null xs (length xs)
              [TreeNode.mk x0 None None] [0%nat] 1%nat) as (h' & Hloop & Hwf & Hlen).
  { intros [|p] n Hp; simplify_eq/=. split; intros c Hc; done. }
  { repeat constructor. }
  { lia. }
  rewrite Hloop. simpl in Hlen. unfold returned_tree.
  destruct (read_tree_total h' (length h') (Some 0%nat) Hwf) as [t Hread].
  { intros p [= <-]. lia. }
  rewrite Hread.
  apply level_order_loop_grows in Hloop as [Hkeep Hnew].
  destruct (Hkeep 0%nat (TreeNode.mk x0 None None) eq_refl) as (n0 & Hn0 & Hd0).
  simpl in Hd0.
  assert (Hvals : ∀ v, v ∈ preorder t → v ∈ xs ∧ is_null v = false).
  { intros v Hv.
    destruct (read_tree_values _ _ _ _ Hread v Hv) as (p & n & Hp & <-).
    destruct (Hnew p n Hp) as [[n1 Hp1]|Hnew1]; [|done].
    destruct p as [|p]; [|done]. by simplify_eq/=. }
  destruct (length h') as [|fuel]; [lia|]. simpl in Hread. rewrite Hn0 in Hread.
  simpl in Hread.
  destruct (read_tree fuel h' (TreeNode.left n0)) as [l|]; simpl in Hread; [|done].
  destruct (read_tree fuel h' (TreeNode.right n0)) as [r|]; simpl in Hread; [|done].
  injection Hread as <-. rewrite Hd0 in *. by exists l, r.
Qed.

(** X1: [build_from_level_order] returns the empty tree exactly when the
    list is empty or starts with the null marker; in every other case it
    returns a tree whose root holds the first value.  It never raises. *)
Theorem build_from_level_order_root (xs : list value) (m : value) :
  (build_from_level_order xs m = Returned Leaf ↔ xs = [] ∨ head xs = Some m) ∧
  (∀ x0, head xs = Some x0 → x0 ≠ m →
         ∃ l r, build_from_level_order xs m = Returned (Node x0 l r)).
Proof.
  unfold build_from_level_order, py_eq. destruct xs as [|x0 rest]; simpl.
  { split; [naive_solver | done]. }
  case_bool_decide as Hx0.
  - subst x0. split; [naive_solver | by intros ? [= <-]].
  - destruct (level_order_from_root_spec (λ x, bool_decide (x = m)) (x0 :: rest) x0)
      as (l & r & -> & _).
    { apply list_elem_of_here. }
    { by apply bool_decide_eq_false_2. }
    split; [|intros ? [= <-] _; by eauto].
    split; [done | intros [?|[= ?]]; done].
Qed.

(** X2: every value of the tree that [build_from_level_order] returns is a
    value of the input list and differs from the null marker. *)
Theorem build_from_level_order_values (xs : list value) (m : value) :
  ∃ t, build_from_level_order xs m = Returned t ∧
       ∀ v, v ∈ preorder t → v ∈ xs ∧ v ≠ m.
Proof.
  unfold build_from_level_order, py_eq. destruct xs as [|x0 rest].
  { exists Leaf. split; [done|]. intros v Hv. by apply elem_of_nil in Hv. }
  case_bool_decide as Hx0.
  { exists Leaf. split; [done|]. intros v Hv. by apply elem_of_nil in Hv. }
  destruct (level_order_from_root_spec (λ x, bool_decide (x = m)) (x0 :: rest) x0)
    as (l & r & -> & Hvals).
  { apply list_elem_of_here. }
  { by apply bool_decide_eq_false_2. }
  eexists. split; [done|]. intros v Hv. destruct (Hvals v Hv) as [Hin Hnull].
  split; [done|]. by apply bool_decide_eq_false in Hnull.
Qed.

(** ** [LevelOrderTreeConstructor.build_tree] *)

Lemma pop_leading_split is_null xs :
  forallb is_null xs = false →
  ∃ ms x0 rest, xs = ms ++ x0 :: rest ∧ forallb is_null ms = true ∧
                is_null x0 = false ∧
                LevelOrderTreeConstructor.pop_leading is_null xs = x0 :: rest.
Proof.
  induction xs as [|x xs IH]; simpl; [done|].
  destruct (is_null x) eqn:Hx; simpl.
  - intros (ms & x0 & rest & -> & Hms & Hx0 & Hpop)%IH.
    exists (x :: ms), x0, rest. simpl. by rewrite Hx, Hms.
  - intros _. by exists [], x, xs.
Qed.

(** The two ways through [build_tree]: every value is a null marker, or the
    leading markers are popped and the loop runs on what is left. *)
Lemma level_order_build_tree_cases (xs : list value) (nm : option (list value)) :
  let is_null := λ x, py_in x (default LevelOrderTreeConstructor.default_null_markers nm) in
  (forallb is_null xs = true ∧
   LevelOrderTreeConstructor.build_tree xs nm = (xs, Returned Leaf)) ∨
  (∃ ms x0 rest,
     xs = ms ++ x0 :: rest ∧ forallb is_null ms = true ∧ is_null x0 = false ∧
     LevelOrderTreeConstructor.build_tree xs nm
       = (x0 :: rest, level_order_from_root is_null (x0 :: rest) x0)).
Proof.
  intros is_null. unfold LevelOrderTreeConstructor.build_tree. fold is_null.
  destruct (forallb is_null xs) eqn:Hall.
  - left. by rewrite orb_true_r.
  - right. rewrite orb_false_r.
    destruct (pop_leading_split is_null xs Hall) as (ms & x0 & rest & -> & Hms & Hx0 & ->).
    rewrite bool_decide_eq_false_2 by (by destruct ms).
    by exists ms, x0, rest.
Qed.

(** X3: [LevelOrderTreeConstructor.build_tree] never raises.  When every
    value of the list is a null marker (so also for the empty list) it
    returns the empty tree and leaves the caller's list as it is.  Otherwise
    it pops the leading null markers off the caller's list and returns a
    tree whose root holds the first value left, all of whose values are
    values of the list that are not null markers. *)
Theorem level_order_build_tree_result (xs : list value) (nm : option (list value)) :
  let is_null := λ x, py_in x (default LevelOrderTreeConstructor.default_null_markers nm) in
  (forallb is_null xs = true ∧
   LevelOrderTreeConstructor.build_tree xs nm = (xs, Returned Leaf)) ∨
  (∃ ms x0 rest l r,
     xs = ms ++ x0 :: rest ∧ forallb is_null ms = true ∧ is_null x0 = false ∧
     LevelOrderTreeConstructor.build_tree xs nm = (x0 :: rest, Returned (Node x0 l r)) ∧
     ∀ v, v ∈ preorder (Node x0 l r) → v ∈ x0 :: rest ∧ is_null v = false).
Proof.
  intros is_null.
  destruct (level_order_build_tree_cases xs nm) as [?|(ms & x0 & rest & Hxs & Hms & Hx0 & Hb)];
    [by left|right].
  destruct (level_order_from_root_spec is_null (x0 :: rest) x0) as (l & r & Hroot & Hvals);
    [apply list_elem_of_here | done |].
  exists ms, x0, rest, l, r. split_and!; [done..| |done].
  rewrite Hb. f_equal. exact Hroot.
Qed.

(** X4: a second call of [LevelOrderTreeConstructor.build_tree] on the list
    that a first call left behind returns the same tree and leaves the list
    as it is: only the first call changes the caller's list. *)
Theorem level_order_build_tree_again (xs : list value) (nm : option (list value)) :
  LevelOrderTreeConstructor.build_tree
    (fst (LevelOrderTreeConstructor.build_tree xs nm)) nm
  = LevelOrderTreeConstructor.build_tree xs nm.
Proof.
  destruct (level_order_build_tree_cases xs nm)
    as [[Hall Hb]|(ms & x0 & rest & Hxs & Hms & Hx0 & Hb)]; rewrite Hb; [done|].
  cbn [fst]. unfold LevelOrderTreeConstructor.build_tree.
  cbn [forallb LevelOrderTreeConstructor.pop_leading]. rewrite Hx0.
  by rewrite bool_decide_eq_false_2.
Qed.

(** ** Level-order input without null markers *)

Section heap_layout.
Variable is_null : value → bool.
Variable xs : list value.
Hypothesis Hplain : ∀ x, x ∈ xs → is_null x = false.

(** Attaching a child at an index inside the list allocates the node for
    the value there and links it. *)
Lemma attach_child_inside set_child current i h queue x :
  xs !! i = Some x →
  attach_child is_null xs set_child current i (h, queue)
    = (set_child (h ++ [TreeNode.mk x None None]) current (length h),
       queue ++ [length h]).
Proof.
  intros Hx. unfold attach_child. rewrite Hx.
  by rewrite (Hplain x) by (by eapply list_elem_of_lookup_2).
Qed.

Lemma attach_child_outside set_child current i h queue :
  xs !! i = None →
  attach_child is_null xs set_child current i (h, queue) = (h, queue).
Proof. intros Hx. unfold attach_child. by rewrite Hx. Qed.

(** One round of the loop on a store laid out up to node [k]. *)
Lemma laid_out_round k h h1 :
  (2 * k + 1 < length xs)%nat →
  laid_out xs k (2 * k + 1) h →
  ∀ x, xs !! (2 * k + 1)%nat = Some x →
  h1 = set_left (h ++ [TreeNode.mk x None None]) k (2 * k + 1) →
  match xs !! (2 * k + 2)%nat with
  | Some x' =>
      laid_out xs (S k) (2 * k + 3)
        (set_right (h1 ++ [TreeNode.mk x' None None]) k (2 * k + 2))
  | None => laid_out xs (S k) (2 * k + 2) h1
  end.
Proof.
  intros Hk [Hlen Hh] x Hx ->.
  assert (Hleft : ∀ j y, (j < 2 * k + 2)%nat → xs !! j = Some y →
    set_left (h ++ [TreeNode.mk x None None]) k (2 * k + 1) !! j
    = Some (TreeNode.mk y
              (if decide (j < S k)%nat then heap_link (length xs) (2 * j + 1) else None)
              (if decide (j < k)%nat then heap_link (length xs) (2 * j + 2) else None))).
  { intros j y Hj Hy. unfold set_left. rewrite list_lookup_alter.
    destruct (xs !! k) as [xk|] eqn:Hxk; [|apply lookup_ge_None in Hxk; lia].
    destruct (decide (j = 2 * k + 1)%nat) as [->|Hne].
    - rewrite decide_False by lia. rewrite list_lookup_middle by lia.
      repeat case_decide; try lia. congruence.
    - rewrite (lookup_app_l h) by lia. rewrite (lookup_app_l h) by lia.
      rewrite (Hh j y) by (done || lia). rewrite (Hh k xk) by (done || lia).
      unfold heap_link. repeat case_decide; simplify_eq/=; try lia; done. }
  assert (Hlen1 : length (set_left (h ++ [TreeNode.mk x None None]) k (2 * k + 1))
                  = (2 * k + 2)%nat).
  { unfold set_left. rewrite length_alter, length_app. simpl. lia. }
  destruct (xs !! (2 * k + 2)%nat) as [x'|] eqn:Hx'.
  - split.
    { unfold set_right. rewrite length_alter, length_app, Hlen1. simpl. lia. }
    intros j y Hj Hy. unfold set_right. rewrite list_lookup_alter.
    destruct (xs !! k) as [xk|] eqn:Hxk; [|apply lookup_ge_None in Hxk; lia].
    pose proof (lookup_lt_Some _ _ _ Hx') as Hlt'.
    destruct (decide (j = 2 * k + 2)%nat) as [->|Hne].
    + rewrite decide_False by lia. rewrite list_lookup_middle by lia.
      repeat case_decide; try lia. congruence.
    + rewrite !lookup_app_l by lia.
      rewrite (Hleft j y) by (done || lia). rewrite (Hleft k xk) by (done || lia).
      unfold heap_link. repeat case_decide; simplify_eq/=; try lia; done.
  - apply lookup_ge_None in Hx'. split; [done|].
    intros j y Hj Hy. rewrite (Hleft j y) by (done || lia).
    unfold heap_link. repeat case_decide; simplify_eq/=; try lia; done.
Qed.

(** The loop, started on a store laid out up to node [k] with the nodes
    from [k] on in the queue, ends on a store with one node per value, all
    of them linked to their children. *)
Lemma level_order_loop_laid_out fuel k h h' :
  (k ≤ length xs)%nat →
  laid_out xs k ((2 * k + 1) `min` length xs) h →
  level_order_loop is_null xs fuel h
    (seq k ((2 * k + 1) `min` length xs - k)) (2 * k + 1) = Some h' →
  ∃ k', (length xs ≤ 2 * k' + 1)%nat ∧ laid_out xs k' (length xs) h'.
Proof.
  revert k h. induction fuel as [|fuel IH]; intros k h Hk Hlaid.
  - destruct (seq k _) as [|current queue] eqn:Hq; cbn [level_order_loop].
    + intros [= <-]. exists k. apply (f_equal length) in Hq.
      rewrite length_seq in Hq. cbn [length] in Hq.
      assert ((2 * k + 1) `min` length xs = length xs)%nat as Hmin by lia.
      rewrite Hmin in Hlaid. split; [lia | done].
    + case_bool_decide; [done|]. intros [= <-]. exists k.
      assert ((2 * k + 1) `min` length xs = length xs)%nat as Hmin by lia.
      rewrite Hmin in Hlaid. split; [lia | done].
  - destruct (decide (2 * k + 1 < length xs)%nat) as [Hin|Hout].
    2:{ assert ((2 * k + 1) `min` length xs = length xs)%nat as Hmin by lia.
        rewrite Hmin in *. intros Hloop. exists k. split; [lia|].
        destruct (seq k (length xs - k)) as [|current queue];
          cbn [level_order_loop] in Hloop; [by simplify_eq|].
        rewrite bool_decide_eq_false_2 in Hloop by lia. by simplify_eq. }
    assert ((2 * k + 1) `min` length xs = 2 * k + 1)%nat as Hmin by lia.
    rewrite Hmin in *.
    replace (2 * k + 1 - k)%nat with (S k) by lia. cbn [seq level_order_loop].
    rewrite bool_decide_eq_true_2 by done.
    destruct (lookup_lt_is_Some_2 xs (2 * k + 1) Hin) as [x Hx].
    rewrite (attach_child_inside _ _ _ _ _ x Hx).
    destruct Hlaid as [Hlen Hh]. rewrite Hlen.
    pose proof (laid_out_round k h _ Hin (conj Hlen Hh) x Hx eq_refl) as Hround.
    assert (Hq1 : seq (S k) k ++ [(2 * k + 1)%nat] = seq (S k) (S k)).
    { replace (S k) with (k + 1)%nat at 3 by lia. rewrite seq_app. cbn [seq].
      do 2 f_equal. lia. }
    assert (Hq2 : seq (S k) (S k) ++ [(2 * k + 2)%nat] = seq (S k) (S (S k))).
    { replace (S (S k)) with (S k + 1)%nat by lia. rewrite seq_app. cbn [seq].
      do 2 f_equal. lia. }
    rewrite Hq1.
    replace (2 * k + 1 + 1)%nat with (2 * k + 2)%nat by lia.
    destruct (xs !! (2 * k + 2)%nat) as [x'|] eqn:Hx'.
    + rewrite (attach_child_inside _ _ _ _ _ x' Hx').
      assert (length (set_left (h ++ [TreeNode.mk x None None]) k (2 * k + 1))
              = (2 * k + 2)%nat) as ->.
      { unfold set_left. rewrite length_alter, length_app. simpl. lia. }
      rewrite Hq2. pose proof (lookup_lt_Some _ _ _ Hx') as Hlt'.
      intros Hloop. eapply (IH (S k)); [lia| |].
      * replace ((2 * S k + 1) `min` length xs)%nat with (2 * k + 3)%nat by lia.
        exact Hround.
      * replace ((2 * S k + 1) `min` length xs - S k)%nat with (S (S k)) by lia.
        replace (2 * S k + 1)%nat with (2 * k + 2 + 1)%nat by lia.
        exact Hloop.
    + rewrite (attach_child_outside _ _ _ _ _ Hx').
      intros Hloop. apply lookup_ge_None in Hx'. eapply (IH (S k)); [lia| |].
      * replace ((2 * S k + 1) `min` length xs)%nat with (2 * k + 2)%nat by lia.
        exact Hround.
      * replace ((2 * S k + 1) `min` length xs - S k)%nat with (S k) by lia.
        replace (2 * S k + 1)%nat with (2 * k + 2 + 1)%nat by lia.
        exact Hloop.
Qed.
End heap_layout.

Lemma heap_tree_outside fuel xs j :
  (length xs ≤ j)%nat → heap_tree fuel xs j = Leaf.
Proof.
  intros Hj. destruct fuel; simpl; [done|].
  by rewrite (proj2 (lookup_ge_None xs j)).
Qed.

(** With the length of the list as fuel, [heap_tree] is the tree it
    describes: more fuel changes nothing. *)
Lemma heap_tree_more_fuel xs fuel fuel' j :
  (length xs - j ≤ fuel)%nat → (fuel ≤ fuel')%nat →
  heap_tree fuel' xs j = heap_tree fuel xs j.
Proof.
  revert fuel' j. induction fuel as [|fuel IH]; intros fuel' j Hf Hle.
  { rewrite !heap_tree_outside by lia. done. }
  destruct fuel' as [|fuel']; [lia|]. simpl.
  destruct (xs !! j) as [x|] eqn:Hx; [|done].
  apply lookup_lt_Some in Hx. by rewrite !(IH fuel') by lia.
Qed.

Lemma heap_tree_equation xs j :
  heap_tree (length xs) xs j =
    match xs !! j with
    | Some x =>
        Node x (heap_tree (length xs) xs (2 * j + 1))
               (heap_tree (length xs) xs (2 * j + 2))
    | None => Leaf
    end.
Proof.
  rewrite <- (heap_tree_more_fuel xs (length xs) (S (length xs)) j) by lia.
  reflexivity.
Qed.

Lemma read_tree_absent fuel h : read_tree fuel h None = Some Leaf.
Proof. by destruct fuel. Qed.

(** Reading a store that is laid out to its end gives the array layout. *)
Lemma read_tree_laid_out xs h k :
  (length xs ≤ 2 * k + 1)%nat → laid_out xs k (length xs) h →
  ∀ fuel j, (length xs - j ≤ fuel)%nat →
    read_tree fuel h (heap_link (length xs) j) = Some (heap_tree fuel xs j).
Proof.
  intros Hk [Hlen Hh]. induction fuel as [|fuel IH]; intros j Hf.
  { unfold heap_link. by rewrite decide_False by lia. }
  unfold heap_link. case_decide as Hj; simpl.
  - destruct (lookup_lt_is_Some_2 xs j Hj) as [x Hx].
    rewrite Hx, (Hh j x Hj Hx). simpl.
    case_decide.
    + rewrite !IH by lia. done.
    + rewrite !heap_tree_outside by lia. by rewrite !read_tree_absent.
  - by rewrite (proj2 (lookup_ge_None xs j)) by lia.
Qed.

(** Without a null marker in the list, every value gets its node. *)
Lemma level_order_array_layout (xs : list value) (m : value) :
  m ∉ xs → build_from_level_order xs m = Returned (heap_tree (length xs) xs 0).
Proof.
  intros Hm.
  unfold build_from_level_order, py_eq. destruct xs as [|x0 rest]; [done|].
  rewrite bool_decide_eq_false_2 by (intros ->; apply Hm, list_elem_of_here).
  set (xs := x0 :: rest) in *. set (is_null := λ x, bool_decide (x = m)).
  assert (Hplain : ∀ x, x ∈ xs → is_null x = false).
  { intros x Hx. apply bool_decide_eq_false_2. by intros ->. }
  unfold level_order_from_root. cbn [new_node length app].
  destruct (level_order_loop_total is_null xs (length xs)
              [TreeNode.mk x0 None None] [0%nat] 1%nat) as (h' & Hloop & Hwf & _).
  { intros [|p] n Hp; simplify_eq/=. split; intros c Hc; done. }
  { repeat constructor. }
  { lia. }
  rewrite Hloop.
  destruct (level_order_loop_laid_out is_null xs Hplain (length xs) 0
              [TreeNode.mk x0 None None] h') as (k & Hk & Hlaid).
  { lia. }
  { split; [done|]. intros [|j] x Hj Hx; [|simpl in Hj; lia]. by simplify_eq/=. }
  { exact Hloop. }
  unfold returned_tree. rewrite (proj1 Hlaid).
  pose proof (read_tree_laid_out xs h' k Hk Hlaid (length xs) 0 ltac:(lia)) as Hread.
  unfold heap_link in Hread. rewrite decide_True in Hread by (simpl; lia).
  by rewrite Hread.
Qed.

(** X5: on a list that does not contain the null marker,
    [build_from_level_order] returns the array layout of the list: the node
    holding [xs[j]] has the node holding [xs[2j+1]] as left child and the
    node holding [xs[2j+2]] as right child, where those indices exist. *)
Theorem build_from_level_order_heap (xs : list value) (m : value) (Hm : m ∉ xs) :
  build_from_level_order xs m = Returned (heap_tree (length xs) xs 0) ∧
  ∀ j, heap_tree (length xs) xs j =
         match xs !! j with
         | Some x =>
             Node x (heap_tree (length xs) xs (2 * j + 1))
                    (heap_tree (length xs) xs (2 * j + 2))
         | None => Leaf
         end.
Proof. split; [by apply level_order_array_layout | apply heap_tree_equation]. Qed.

Lemma build_from_level_order_heap_witness :
  (VInt (-1) ∉ ints [1; 2; 3; 4; 5]) ∧
  build_from_level_order (ints [1; 2; 3; 4; 5]) (VInt (-1))
    = Returned (Node (VInt 1)
                  (Node (VInt 2) (Node (VInt 4) Leaf Leaf) (Node (VInt 5) Leaf Leaf))
                  (Node (VInt 3) Leaf Leaf)).
Proof.
  assert (H : VInt (-1) ∉ ints [1; 2; 3; 4; 5]).
  { apply py_in_false. reflexivity. }
  split; [exact H|].
  exact (proj1 (build_from_level_order_heap (ints [1; 2; 3; 4; 5]) (VInt (-1)) H)).
Defined.

(** ** Metrics *)

Lemma check_height_depth t : snd (check_height t) = max_depth t.
Proof.
  induction t as [|d l IHl r IHr]; [done|].
  rewrite max_depth_max. simpl.
  destruct (check_height l) as [lb lh], (check_height r) as [rb rh].
  simpl in *. by subst.
Qed.

(** X6: the one-pass balance check returns true exactly on the trees in
    which, at every node, the depths of the left and the right subtree as
    [max_depth] computes them differ by at most one. *)
Theorem is_balanced_tree_spec (t : tree) :
  is_balanced_tree t = true ↔ height_balanced t.
Proof.
  unfold is_balanced_tree. induction t as [|d l IHl r IHr]; [done|].
  pose proof (check_height_depth l) as Hl. pose proof (check_height_depth r) as Hr.
  simpl.
  destruct (check_height l) as [lb lh], (check_height r) as [rb rh].
  simpl in *. subst lh rh.
  rewrite !andb_true_iff, bool_decide_eq_true. tauto.
Qed.

(** X7: the diameter operation returns 0 on the empty tree and, on any
    other tree, the largest number of nodes on a path that turns at some
    node: it is at least [max_depth left + max_depth right + 1] for every
    node, and equal to it for one of them. *)
Theorem tree_diameter_spec (t : tree) :
  (∀ z, z ∈ turning_paths t → z ≤ tree_diameter t) ∧
  (t ≠ Leaf → tree_diameter t ∈ turning_paths t) ∧
  (t = Leaf → tree_diameter t = 0).
Proof.
  unfold tree_diameter. induction t as [|d l IHl r IHr].
  { split; [intros z Hz; by apply elem_of_nil in Hz | done]. }
  pose proof (diameter_helper_bounds l) as (Hlh & Hl0 & _).
  pose proof (diameter_helper_bounds r) as (Hrh & Hr0 & _).
  simpl.
  destruct (diameter_helper l) as [ld lh], (diameter_helper r) as [rd rh].
  simpl in *. subst lh rh.
  destruct IHl as (IHl1 & IHl2 & _), IHr as (IHr1 & IHr2 & _).
  split; [|split; [intros _|done]].
  - intros z Hz. apply elem_of_cons in Hz as [->|Hz]; [lia|].
    apply elem_of_app in Hz as [Hz|Hz]; [apply IHl1 in Hz | apply IHr1 in Hz]; lia.
  - pose proof (max_depth_nonneg l). pose proof (max_depth_nonneg r).
    destruct (Z.max_spec (ld `max` rd) (max_depth l + max_depth r + 1))
      as [[_ ->]|[Hle ->]]; [apply list_elem_of_here|].
    apply list_elem_of_further, elem_of_app.
    destruct (Z.max_spec ld rd) as [[_ Hmax]|[_ Hmax]]; rewrite Hmax in *.
    + right. apply IHr2. intros ->. specialize (Hr0 eq_refl). lia.
    + left. apply IHl2. intros ->. specialize (Hl0 eq_refl). lia.
Qed.

(** ** Pre-order and post-order lists: traversals and metrics *)

Lemma right_chain_postorder xs : postorder (right_chain xs) = rev xs.
Proof. induction xs as [|x xs IH]; simpl; [done | by rewrite IH]. Qed.

Lemma build_from_pre_order_chain xs :
  build_from_pre_order xs = Returned (left_chain xs).
Proof.
  unfold build_from_pre_order, crun. case_bool_decide; [by subst|].
  by rewrite build_recursive_pre_chain by lia.
Qed.

Lemma build_from_post_order_chain xs :
  build_from_post_order xs = Returned (right_chain (rev xs)).
Proof.
  unfold build_from_post_order, crun. case_bool_decide; [by subst|].
  rewrite build_recursive_post_chain by lia. by rewrite firstn_all.
Qed.

(** X8: the builders for traversal lists return a tree with the traversal
    they were given: the root, left, right traversal of what
    [build_from_pre_order] returns is its input, and the left, right, root
    traversal of what [build_from_post_order] returns is its input; this
    includes the empty list. *)
Theorem traversal_round_trip (xs : list value) :
  ∃ t1 t2,
    build_from_pre_order xs = Returned t1 ∧ preorder t1 = xs ∧
    build_from_post_order xs = Returned t2 ∧ postorder t2 = xs.
Proof.
  exists (left_chain xs), (right_chain (rev xs)).
  rewrite build_from_pre_order_chain, build_from_post_order_chain.
  rewrite left_chain_preorder, right_chain_postorder, rev_involutive. done.
Qed.

Lemma left_chain_metrics xs :
  check_height (left_chain xs)
    = (bool_decide (length xs ≤ 2)%nat, Z.of_nat (length xs)) ∧
  diameter_helper (left_chain xs) = (Z.of_nat (length xs), Z.of_nat (length xs)).
Proof.
  induction xs as [|x xs [IHc IHd]]; [done|].
  cbn [left_chain check_height diameter_helper length]. rewrite IHc, IHd.
  split; f_equal; try lia.
  rewrite andb_true_r.
  destruct (length xs) as [|[|[|n]]]; simpl; repeat case_bool_decide; try lia; done.
Qed.

Lemma right_chain_metrics xs :
  check_height (right_chain xs)
    = (bool_decide (length xs ≤ 2)%nat, Z.of_nat (length xs)) ∧
  diameter_helper (right_chain xs) = (Z.of_nat (length xs), Z.of_nat (length xs)).
Proof.
  induction xs as [|x xs [IHc IHd]]; [done|].
  cbn [right_chain check_height diameter_helper length]. rewrite IHc, IHd.
  split; f_equal; try lia.
  destruct (length xs) as [|[|[|n]]]; simpl; repeat case_bool_decide; try lia; done.
Qed.

(** X9: a tree built from a pre-order or a post-order list is as deep as
    the list is long, its diameter is the length of the list, and the
    balance check accepts it exactly when the list has at most two
    values. *)
Theorem traversal_built_metrics (xs : list value) :
  ∃ t1 t2,
    build_from_pre_order xs = Returned t1 ∧
    build_from_post_order xs = Returned t2 ∧
    max_depth t1 = Z.of_nat (length xs) ∧ max_depth t2 = Z.of_nat (length xs) ∧
    tree_diameter t1 = Z.of_nat (length xs) ∧ tree_diameter t2 = Z.of_nat (length xs) ∧
    (is_balanced_tree t1 = true ↔ (length xs ≤ 2)%nat) ∧
    (is_balanced_tree t2 = true ↔ (length xs ≤ 2)%nat).
Proof.
  exists (left_chain xs), (right_chain (rev xs)).
  rewrite build_from_pre_order_chain, build_from_post_order_chain.
  destruct (left_chain_metrics xs) as [Hc1 Hd1].
  destruct (right_chain_metrics (rev xs)) as [Hc2 Hd2].
  rewrite length_rev in Hc2, Hd2.
  rewrite <- !check_height_depth. unfold tree_diameter, is_balanced_tree.
  rewrite Hc1, Hc2, Hd1, Hd2. simpl. rewrite bool_decide_eq_true. done.
Qed.

(** ** The dispatchers: detection and construction together *)

Lemma detect_marker input :
  has_marker input → detect_input_format input = Some "level_order".
Proof.
  intros Hm. unfold detect_input_format.
  rewrite (has_marker_truthy input Hm). simpl.
  by rewrite (proj2 (marker_test_spec input) Hm).
Qed.

Lemma detect_plain input :
  truthy input = true → ¬ has_marker input → ¬ has_paren input →
  detect_input_format input = Some "pre_order".
Proof.
  intros Ht Hm Hp. unfold detect_input_format. rewrite Ht. simpl.
  destruct (match input with InList l => _ | _ => false end) eqn:E1.
  { by apply marker_test_spec in E1. }
  destruct (match input with InStr s => _ | _ => false end) eqn:E2; [|done].
  by apply paren_test_spec in E2.
Qed.

Lemma detect_falsy input :
  truthy input = false → detect_input_format input = None.
Proof. intros Ht. unfold detect_input_format. by rewrite Ht. Qed.

(** No builder uses up its fuel. *)
Lemma build_from_level_order_total xs m :
  ∃ t, build_from_level_order xs m = Returned t.
Proof.
  unfold build_from_level_order. destruct xs as [|x0 rest]; [by eauto|].
  destruct (py_eq x0 m); [by eauto|]. apply level_order_from_root_total.
Qed.

Lemma constructors_within_fuel input :
  level_order_constructor input ≠ OutOfFuel ∧
  pre_order_constructor input ≠ OutOfFuel ∧
  parenthesis_constructor input ≠ OutOfFuel ∧
  post_order_constructor input ≠ OutOfFuel.
Proof.
  assert (Hpar : ∀ l, parse_tree_list l ≠ OutOfFuel).
  { induction l as [|[z| |c] l IH]; simpl; try done. by destruct (_ || _). }
  split_and!; destruct input as [l|s|]; simpl; try done.
  - by destruct (build_from_level_order_total l default_null_marker) as [t ->].
  - by destruct (build_from_level_order_total (str_items s) default_null_marker) as [t ->].
  - by rewrite build_from_pre_order_chain.
  - by rewrite build_from_pre_order_chain.
  - by case_bool_decide.
  - pose proof (build_from_parenthesis_total s) as H.
    by destruct (build_from_parenthesis s).
  - by rewrite build_from_post_order_chain.
  - by rewrite build_from_post_order_chain.
Qed.

Lemma problem_lookup m c :
  Problem.construction_methods !! m = Some c →
  c = level_order_constructor ∨ c = pre_order_constructor ∨
  c = parenthesis_constructor ∨ c = post_order_constructor.
Proof.
  unfold Problem.construction_methods. rewrite !lookup_insert, lookup_empty.
  repeat case_decide; naive_solver.
Qed.

Lemma problemvar_lookup m :
  m ≠ "in_order" →
  Problemvar.construction_methods !! m = Problem.construction_methods !! m.
Proof.
  intros Hm. unfold Problemvar.construction_methods, Problem.construction_methods.
  rewrite !lookup_insert, !lookup_empty. repeat case_decide; congruence.
Qed.

Lemma problem_build_tree_within_fuel input method :
  Problem.build_tree input method ≠ OutOfFuel.
Proof.
  unfold Problem.build_tree.
  destruct (_ ≫= _) as [c|] eqn:Hc; [|done].
  assert (∃ m, Problem.construction_methods !! m = Some c) as [m Hm].
  { destruct (match method with None => _ | Some m => Some m end) as [m|];
      simpl in Hc; [by eauto | done]. }
  pose proof (constructors_within_fuel input) as (? & ? & ? & ?).
  apply problem_lookup in Hm. naive_solver.
Qed.

(** With a format name other than [in_order], the dispatcher of
    [problemvar.py] runs the dispatcher of [Problem.py] inside its [try]
    block. *)
Lemma problemvar_build_tree_caught input method :
  method ≠ Some "in_order" →
  Problemvar.build_tree input method = caught (Problem.build_tree input method).
Proof.
  intros Hm. unfold Problemvar.build_tree, Problem.build_tree, Problemvar.dispatch.
  set (resolved := match method with None => detect_input_format input | Some m => Some m end).
  assert (Hres : resolved ≠ Some "in_order").
  { subst resolved. destruct method as [m|]; [done|].
    unfold detect_input_format. by repeat destruct (if _ then _ else _); repeat case_match. }
  destruct resolved as [m|]; simpl; [|done].
  rewrite problemvar_lookup by congruence.
  destruct (Problem.construction_methods !! m) as [c|]; [|done].
  unfold caught. by destruct (c input).
Qed.

(** X10: the dispatcher of [problemvar.py] always returns to its caller: it
    never raises, whatever the input and the format name.  With a format
    name other than [in_order] it returns the tree that the dispatcher of
    [Problem.py] returns and prints nothing, and where that one raises it
    prints the error after "Tree Construction Error: " and returns
    [None]. *)
Theorem problemvar_build_tree_returns (input : input_data) (method : option string) :
  (∃ t, snd (Problemvar.build_tree input method) = Returned t) ∧
  (method ≠ Some "in_order" →
   (∀ t, Problem.build_tree input method = Returned t →
         Problemvar.build_tree input method = ([], Returned t)) ∧
   (∀ e, Problem.build_tree input method = Raised e →
         Problemvar.build_tree input method
           = (["Tree Construction Error: " +:+ exn_str e], Returned Leaf))).
Proof.
  split.
  - destruct (decide (method = Some "in_order")) as [->|Hm]; [by exists Leaf|].
    rewrite problemvar_build_tree_caught by done.
    pose proof (problem_build_tree_within_fuel input method) as Hfuel.
    destruct (Problem.build_tree input method); simpl; by eauto.
  - intros Hm. rewrite problemvar_build_tree_caught by done.
    split; [intros t -> | intros e ->]; done.
Qed.

(** X11: empty input.  With no format name, the detector reports no format
    and the dispatcher of [Problem.py] raises
    [ValueError("Unsupported construction method: None")], which the
    dispatcher of [problemvar.py] prints.  With the name of a supported
    format, an empty list or an empty string gives the empty tree. *)
Theorem empty_input_dispatch (input : input_data) (Hempty : truthy input = false) :
  Problem.build_tree input None
    = Raised (ValueError "Unsupported construction method: None") ∧
  Problemvar.build_tree input None
    = (["Tree Construction Error: Unsupported construction method: None"],
       Returned Leaf) ∧
  (input ≠ InNone →
   ∀ m, m ∈ supported_methods →
        Problem.build_tree input (Some m) = Returned Leaf ∧
        Problemvar.build_tree input (Some m) = ([], Returned Leaf)).
Proof.
  unfold Problem.build_tree, Problemvar.build_tree, Problemvar.dispatch.
  rewrite (detect_falsy input Hempty). split; [done|]. split; [done|].
  intros Hnone m Hm.
  assert (input = InList [] ∨ input = InStr "") as Hin.
  { destruct input as [[|x l]|[|c s]|]; simpl in Hempty; by eauto. }
  unfold supported_methods in Hm. set_unfold.
  destruct Hin as [-> | ->]; destruct_or!; subst; by vm_compute.
Qed.

Lemma empty_input_dispatch_witness :
  truthy (InList []) = false ∧
  Problem.build_tree (InList []) None
    = Raised (ValueError "Unsupported construction method: None") ∧
  Problem.build_tree (InList []) (Some "level_order") = Returned Leaf.
Proof.
  assert (H : truthy (InList []) = false) by reflexivity.
  destruct (empty_input_dispatch (InList []) H) as (H1 & _ & H3).
  split; [exact H|]. split; [exact H1|].
  apply H3; [discriminate | unfold supported_methods; set_solver].
Defined.

(** X12: input with no format name that is neither empty, nor a list
    containing -1 or -999, nor a string containing a parenthesis, is built
    by the pre-order builder: both dispatchers return the left chain of its
    items, for a string the chain of its characters. *)
Theorem plain_input_dispatch (input : input_data)
    (Htruthy : truthy input = true) (Hmarker : ¬ has_marker input)
    (Hparen : ¬ has_paren input) :
  Problem.build_tree input None = Returned (left_chain (items input)) ∧
  Problemvar.build_tree input None = ([], Returned (left_chain (items input))).
Proof.
  assert (Problem.build_tree input None = Returned (left_chain (items input))) as H.
  { unfold Problem.build_tree. rewrite (detect_plain input) by done.
    change (Some "pre_order" ≫= (Problem.construction_methods !!.))
      with (Some pre_order_constructor).
    destruct input as [l|s|]; simpl; [| |done]; apply build_from_pre_order_chain. }
  split; [done|]. rewrite problemvar_build_tree_caught by done. by rewrite H.
Qed.

Lemma plain_input_dispatch_witness :
  truthy (InStr "42") = true ∧ ¬ has_marker (InStr "42") ∧ ¬ has_paren (InStr "42") ∧
  Problem.build_tree (InStr "42") None
    = Returned (Node (VStr "4") (Node (VStr "2") Leaf Leaf) Leaf).
Proof.
  assert (H1 : truthy (InStr "42") = true) by reflexivity.
  assert (H2 : ¬ has_marker (InStr "42")) by (by intros (l & ? & _)).
  assert (H3 : ¬ has_paren (InStr "42")).
  { intros (s & [= <-] & H). simpl in H. set_solver. }
  split; [exact H1|]. split; [exact H2|]. split; [exact H3|].
  exact (proj1 (plain_input_dispatch (InStr "42") H1 H2 H3)).
Defined.

(** X13: a list with no format name that contains -1 or -999 is built by
    the level-order builder with -1 as its only null marker.  So a list
    that contains -999 but not -1 is laid out whole, -999 included: no value
    of it is taken for a null marker. *)
Theorem marker_list_dispatch (l : list value)
    (Hmarker : VInt (-1) ∈ l ∨ VInt (-999) ∈ l) :
  Problem.build_tree (InList l) None = build_from_level_order l (VInt (-1)) ∧
  (VInt (-1) ∉ l →
   Problem.build_tree (InList l) None = Returned (heap_tree (length l) l 0)).
Proof.
  assert (Problem.build_tree (InList l) None = build_from_level_order l (VInt (-1))) as H.
  { unfold Problem.build_tree. rewrite (detect_marker (InList l)) by (by exists l).
    done. }
  split; [done|]. intros Hno. rewrite H. by apply level_order_array_layout.
Qed.

Lemma marker_list_dispatch_witness :
  (VInt (-1) ∈ ints [1; -999; 3] ∨ VInt (-999) ∈ ints [1; -999; 3]) ∧
  Problem.build_tree (InList (ints [1; -999; 3])) None
    = Returned (Node (VInt 1) (Node (VInt (-999)) Leaf Leaf) (Node (VInt 3) Leaf Leaf)).
Proof.
  assert (H : VInt (-1) ∈ ints [1; -999; 3] ∨ VInt (-999) ∈ ints [1; -999; 3]).
  { right. apply py_in_spec. reflexivity. }
  split; [exact H|].
  exact (proj1 (marker_list_dispatch (ints [1; -999; 3]) H)).
Defined.

(** ** Parenthesis text: what the parser returns *)

Lemma group_returned s p i l j :
  group s p i = Returned (l, j) →
  (at_open s i = true ∧ ∃ j', p (i + 1)%nat = Returned (l, j') ∧ j = (j' + 1)%nat) ∨
  (at_open s i = false ∧ l = Leaf ∧ j = i).
Proof.
  unfold group. destruct (at_open s i); [|intros [= <- <-]; by right].
  destruct (p (i + 1)%nat) as [[t j']| |]; [|done..].
  intros [= <- <-]. left. by eauto.
Qed.

(** A call of [parse_tree] that returns gives a node, with an integer
    value, and with a right subtree only if it has a left one. *)
Lemma parse_tree_shape s fuel i t j :
  parse_tree s fuel i = Returned (t, j) → t ≠ Leaf ∧ left_first t.
Proof.
  revert i t j. induction fuel as [|fuel IH]; intros i t j; [done|].
  rewrite parse_tree_step. destruct (py_int (token s i)) as [v|]; [|done].
  destruct (group s (parse_tree s fuel) (token_end s i)) as [[l j1]| |] eqn:Hl;
    [|done..].
  destruct (group s (parse_tree s fuel) j1) as [[r j2]| |] eqn:Hr; [|done..].
  intros [= <- <-]. split; [done|]. simpl. split; [by eauto|].
  apply group_returned in Hl as [(Hopen1 & j1' & Hl & ->)|(Hopen1 & -> & ->)];
    apply group_returned in Hr as [(Hopen2 & j2' & Hr & ->)|(Hopen2 & -> & ->)].
  - destruct (IH _ _ _ Hl), (IH _ _ _ Hr). by split_and!.
  - destruct (IH _ _ _ Hl). by split_and!.
  - congruence.
  - by split_and!.
Qed.

(** X14: a tree that [build_from_parenthesis] returns holds integers only
    and has no node with a right child but no left child; it is the empty
    tree exactly when the text is empty. *)
Theorem build_from_parenthesis_shape (s : string) (t : tree)
    (Hbuilt : build_from_parenthesis s = Returned t) :
  left_first t ∧ (t = Leaf ↔ s = "").
Proof.
  unfold build_from_parenthesis, crun in Hbuilt. case_bool_decide as Hs.
  { injection Hbuilt as <-. by split. }
  destruct (parse_tree s (S (length (chars s))) 0%nat) as [[t' j]| |] eqn:Hp;
    [|done..].
  injection Hbuilt as ->. apply parse_tree_shape in Hp as [Hne Hshape].
  split; [done | by split].
Qed.

Lemma build_from_parenthesis_shape_witness :
  build_from_parenthesis "1(2(4)(5))(3)"
    = Returned (Node (VInt 1)
                  (Node (VInt 2) (Node (VInt 4) Leaf Leaf) (Node (VInt 5) Leaf Leaf))
                  (Node (VInt 3) Leaf Leaf)) ∧
  left_first (Node (VInt 1)
                (Node (VInt 2) (Node (VInt 4) Leaf Leaf) (Node (VInt 5) Leaf Leaf))
                (Node (VInt 3) Leaf Leaf)).
Proof.
  assert (H : build_from_parenthesis "1(2(4)(5))(3)"
    = Returned (Node (VInt 1)
                  (Node (VInt 2) (Node (VInt 4) Leaf Leaf) (Node (VInt 5) Leaf Leaf))
                  (Node (VInt 3) Leaf Leaf))) by reflexivity.
  split; [exact H|].
  exact (proj1 (build_from_parenthesis_shape _ _ H)).
Defined.

(** ** Decimal text *)

Lemma chars_app a b : chars (a +:+ b) = chars a ++ chars b.
Proof. induction a as [|c a IH]; simpl; [done | by rewrite <- IH]. Qed.

Lemma uint_chars_digits d :
  forallb isdigit (chars (NilEmpty.string_of_uint d)) = true.
Proof. induction d; simpl; try done; by rewrite IHd. Qed.

Lemma uint_chars_value_acc d acc :
  fold_left (λ a c, 10 * a + digit_value c) (chars (NilEmpty.string_of_uint d)) (Z.pos acc)
  = Z.pos (Pos.of_uint_acc d acc).
Proof.
  revert acc. induction d; intros acc; simpl; [done|..];
    rewrite <- IHd; f_equal;
    match goal with
    | |- context [digit_value ?c] =>
        let v := eval vm_compute in (digit_value c) in change (digit_value c) with v
    end; lia.
Qed.

Lemma uint_chars_value d :
  digits_value (chars (NilEmpty.string_of_uint d)) = Z.of_N (Pos.of_uint d).
Proof.
  unfold digits_value. induction d; simpl; [done | exact IHd |..];
    apply (uint_chars_value_acc d).
Qed.

(** The text of an integer is read back by [int] as that integer; it is a
    non-empty run of digits and minus signs. *)
Lemma str_int_spec z :
  py_int (chars (str_int z)) = Some z ∧
  chars (str_int z) ≠ [] ∧
  forallb (λ c, isdigit c || bool_decide (c = "-"%char)) (chars (str_int z)) = true.
Proof.
  assert (Hpos : ∀ p, ∃ ds, chars (NilEmpty.string_of_uint (Pos.to_uint p)) = ds ∧
                      ds ≠ [] ∧ forallb isdigit ds = true ∧ digits_value ds = Z.pos p).
  { intros p. eexists. split; [done|].
    pose proof (uint_chars_value (Pos.to_uint p)) as Hv.
    rewrite Unsigned.of_to in Hv.
    split; [|split; [apply uint_chars_digits | exact Hv]].
    pose proof (Unsigned.to_uint_nonnil p). by destruct (Pos.to_uint p). }
  assert (Hrun : ∀ ds, forallb isdigit ds = true →
            forallb (λ c, isdigit c || bool_decide (c = "-"%char)) ds = true).
  { induction ds as [|c l IH]; simpl; [done|].
    intros [-> Hl]%andb_true_iff. simpl. by apply IH. }
  unfold str_int. destruct z as [|p|p]; [by split_and!|..]; simpl;
    destruct (Hpos p) as (ds & -> & Hne & Hdigits & Hval).
  - split; [|split; [done | by apply Hrun]].
    unfold py_int. destruct ds as [|c l]; [done|].
    rewrite Hdigits, Hval. case_bool_decide as Hminus; [|done].
    subst c. done.
  - split; [|split; [done | simpl; by apply Hrun]].
    change (py_int ("-"%char :: ds))
      with (if negb (bool_decide (ds = [])) && forallb isdigit ds
            then Some (- digits_value ds) else None).
    by rewrite Hdigits, Hval, bool_decide_eq_false_2 by done.
Qed.

(** The text of an integer as Python writes it. *)
Lemma str_int_examples :
  str_int 0 = "0" ∧ str_int 120 = "120" ∧ str_int (-45) = "-45".
Proof. repeat split. Qed.

(** ** Scanning text at a known position *)

(** The scan steps over a run of token characters and stops at the first
    other character, or at the end. *)
Lemma scan_value_run s ds : ∀ pre rest n,
  chars s = pre ++ ds ++ rest →
  forallb token_char ds = true →
  match rest with [] => True | c :: _ => token_char c = false end →
  (length ds + length rest = n)%nat →
  scan_value s n (length pre) = (length pre + length ds)%nat.
Proof.
  induction ds as [|d ds IH]; intros pre rest n Hs Hds Hrest Hn.
  - rewrite Nat.add_0_r. destruct n as [|n]; [done|]. cbn [scan_value].
    destruct rest as [|c rest]; [done|].
    change (pre ++ [] ++ c :: rest) with (pre ++ c :: rest) in Hs.
    rewrite Hs, list_lookup_middle by done.
    unfold token_char in Hrest. by rewrite Hrest.
  - simpl in Hds. apply andb_true_iff in Hds as [Hd Hds].
    destruct n as [|n]; [simpl in Hn; lia|]. cbn [scan_value].
    change (pre ++ (d :: ds) ++ rest) with (pre ++ d :: ds ++ rest) in Hs.
    rewrite Hs at 1. rewrite list_lookup_middle by done.
    unfold token_char in Hd. rewrite Hd.
    replace (length pre + 1)%nat with (length (pre ++ [d]))
      by (rewrite length_app; simpl; lia).
    rewrite (IH (pre ++ [d]) rest).
    + rewrite length_app. simpl. lia.
    + by rewrite <- app_assoc.
    + done.
    + done.
    + simpl in Hn. lia.
Qed.

Lemma token_run s pre ds rest :
  chars s = pre ++ ds ++ rest →
  forallb token_char ds = true →
  match rest with [] => True | c :: _ => token_char c = false end →
  token_end s (length pre) = (length pre + length ds)%nat ∧
  token s (length pre) = ds.
Proof.
  intros Hs Hds Hrest.
  assert (token_end s (length pre) = (length pre + length ds)%nat) as Hend.
  { unfold token_end. apply (scan_value_run s ds pre rest); try done.
    rewrite Hs, !length_app. lia. }
  split; [done|]. unfold token, slice. rewrite Hend, Hs.
  rewrite drop_app_length.
  replace (length pre + length ds - length pre)%nat with (length ds) by lia.
  by rewrite take_app_length.
Qed.

Lemma at_open_at s pre c rest :
  chars s = pre ++ c :: rest →
  at_open s (length pre) = bool_decide (c = "("%char).
Proof.
  intros Hs. unfold at_open. rewrite Hs, list_lookup_middle by done.
  apply bool_decide_ext. naive_solver.
Qed.

Lemma at_open_end s pre :
  chars s = pre → at_open s (length pre) = false.
Proof.
  intros Hs. unfold at_open. rewrite Hs.
  rewrite (proj2 (lookup_ge_None pre (length pre))) by lia.
  by apply bool_decide_eq_false_2.
Qed.

(** A failure of [int] at a position that the parser reads is the outcome
    of the whole call. *)
Lemma failure_at_read_position s i :
  s ≠ "" → reads_at s i → py_int (token s i) = None →
  build_from_parenthesis s = Raised (invalid_literal (token s i)).
Proof.
  intros Hs Hreads Htok.
  destruct (reads_at_propagates s i Hreads (invalid_literal (token s i)) 1%nat)
    as [fuel Hfuel].
  { by rewrite parse_tree_step, Htok. }
  unfold build_from_parenthesis, crun. rewrite bool_decide_eq_false_2 by done.
  pose proof (parse_tree_within_fuel s (S (length (chars s))) 0%nat ltac:(lia)) as Htop.
  set (top := S (length (chars s))) in *.
  assert (parse_tree s (top `max` fuel) 0%nat = Raised (invalid_literal (token s i))) as Hmax.
  { by apply (parse_tree_more_fuel s fuel); [lia|..]. }
  destruct (parse_tree s top 0%nat) as [[t j]|e|] eqn:E; [| |done].
  - rewrite (parse_tree_more_fuel s top (top `max` fuel) _ _ ltac:(lia) E) in Hmax; done.
  - rewrite (parse_tree_more_fuel s top (top `max` fuel) _ _ ltac:(lia) E) in Hmax by done.
    by injection Hmax as ->.
Qed.

(** ** [tree_serializer] and the parenthesis builder *)

Lemma tree_serializer_chars d l r :
  chars (tree_serializer (Node d l r))
  = chars (py_str d) ++ "("%char :: chars (tree_serializer l)
      ++ ")"%char :: "("%char :: chars (tree_serializer r) ++ [")"%char].
Proof. simpl. by rewrite !chars_app. Qed.

(** In the text of a serialized tree the parser reaches the "None" of the
    leftmost absent child, where no integer starts. *)
Lemma tree_serializer_reads s t :
  int_valued t → ∀ pre post,
  chars s = pre ++ chars (tree_serializer t) ++ post →
  reads_at s (length pre) →
  ∃ i, reads_at s i ∧ token s i = [].
Proof.
  induction t as [|d l IHl r _]; intros Hint pre post Hs Hreads.
  - exists (length pre). split; [done|].
    by apply (token_run s pre [] (chars "None" ++ post)).
  - destruct Hint as ([z ->] & Hl & _). rewrite tree_serializer_chars in Hs.
    simpl in Hs. destruct (str_int_spec z) as (Hint & Hne & Hrun).
    rewrite <- !app_assoc in Hs. simpl in Hs.
    destruct (token_run s pre (chars (str_int z)) _ Hs Hrun) as [Hend Htok]; [done|].
    assert (at_open s (token_end s (length pre)) = true) as Hopen.
    { rewrite Hend, <- length_app. rewrite app_assoc in Hs.
      by rewrite (at_open_at s _ _ _ Hs). }
    pose proof (reads_left s (length pre) z Hreads) as Hnext.
    rewrite Htok in Hnext. specialize (Hnext Hint Hopen).
    apply (IHl Hl (pre ++ chars (str_int z) ++ ["("%char])
             (")"%char :: "("%char :: chars (tree_serializer r) ++ ")"%char :: post)).
    + rewrite Hs, <- !app_assoc. simpl. by rewrite <- !app_assoc.
    + rewrite Hend in Hnext.
      replace (length (pre ++ chars (str_int z) ++ ["("%char]))
        with (length pre + length (chars (str_int z)) + 1)%nat; [done|].
      rewrite !length_app. simpl. lia.
Qed.

(** X15: the text that [tree_serializer] writes for a tree of integers is
    never accepted by [build_from_parenthesis]: the serializer writes "None"
    for an absent child, and the parser raises [ValueError] for the empty
    token it finds there.  This holds for the empty tree too. *)
Theorem tree_serializer_not_parsed (t : tree) (Hint : int_valued t) :
  build_from_parenthesis (tree_serializer t) = Raised (invalid_literal []).
Proof.
  destruct (tree_serializer_reads (tree_serializer t) t Hint [] [])
    as (i & Hreads & Htok).
  { by rewrite app_nil_r. }
  { apply reads_root. }
  rewrite <- Htok. apply failure_at_read_position; [|done|by rewrite Htok].
  destruct t; [done|]. simpl. intros Hs. apply (f_equal chars) in Hs.
  rewrite !chars_app in Hs. by destruct (chars (py_str data)).
Qed.

Lemma tree_serializer_not_parsed_witness :
  int_valued tree_3_1_2 ∧
  tree_serializer tree_3_1_2 = "3(1(None)(None))(2(None)(None))" ∧
  build_from_parenthesis "3(1(None)(None))(2(None)(None))"
    = Raised (ValueError "invalid literal for int() with base 10: ''").
Proof.
  assert (H : int_valued tree_3_1_2) by (simpl; eauto 10).
  split; [exact H|]. split; [reflexivity|].
  exact (tree_serializer_not_parsed tree_3_1_2 H).
Defined.

(** ** Parenthesis text: the round trip *)

Lemma group_absent s p pre post :
  chars s = pre ++ post →
  match post with [] => True | c :: _ => c = ")"%char end →
  group s p (length pre) = Returned (Leaf, length pre).
Proof.
  intros Hs Hpost. unfold group. destruct post as [|c post].
  - rewrite app_nil_r in Hs. by rewrite (at_open_end s pre Hs).
  - subst c. by rewrite (at_open_at s pre _ _ Hs).
Qed.

Lemma group_present s p pre rest t j :
  chars s = pre ++ "("%char :: rest →
  p (length pre + 1)%nat = Returned (t, j) →
  group s p (length pre) = Returned (t, (j + 1)%nat).
Proof.
  intros Hs Hp. unfold group. by rewrite (at_open_at s pre _ _ Hs), Hp.
Qed.

(** In a text that holds the text of a tree followed by a closing
    parenthesis or by nothing, a call of [parse_tree] at the start of the
    tree's text returns the tree and stops right after it. *)
Lemma parse_show_paren s t :
  left_first t → t ≠ Leaf → ∀ pre post,
  chars s = pre ++ chars (show_paren t) ++ post →
  match post with [] => True | c :: _ => c = ")"%char end →
  ∃ fuel, parse_tree s fuel (length pre)
          = Returned (t, (length pre + length (chars (show_paren t)))%nat).
Proof.
  induction t as [|d l IHl r IHr]; [done|].
  intros ([z ->] & Hlr & Hl & Hr) _ pre post Hs Hpost.
  destruct (str_int_spec z) as (Hint & Hne & Hrun).
  set (A := chars (str_int z)) in *.
  assert (Hclose : ∀ post', match post' with [] => True | c :: _ => c = ")"%char end →
            match post' with [] => True | c :: _ => token_char c = false end).
  { intros [|c post']; [done | by intros ->]. }
  destruct l as [|dl ll lr].
  - rewrite (Hlr eq_refl) in *. cbn [show_paren py_str] in *.
    rewrite chars_app in *. change (chars "") with (@nil ascii) in *.
    rewrite app_nil_r in *. fold A in Hs |- *.
    destruct (token_run s pre A post Hs Hrun (Hclose _ Hpost)) as [Hend Htok].
    exists 1%nat. rewrite parse_tree_step, Htok, Hint, Hend.
    rewrite app_assoc in Hs. rewrite <- length_app.
    by rewrite !(group_absent s _ (pre ++ A) post Hs Hpost).
  - set (l := Node dl ll lr) in *. set (L := chars (show_paren l)) in *.
    destruct r as [|dr rl rr].
    + assert (Hshow : chars (show_paren (Node (VInt z) l Leaf))
                      = A ++ "("%char :: L ++ [")"%char]).
      { cbn [show_paren py_str]. subst l. cbn iota. by rewrite !chars_app. }
      rewrite Hshow in *. clear Hshow.
      rewrite <- !app_assoc in Hs. cbn [app] in Hs. rewrite <- !app_assoc in Hs.
      cbn [app] in Hs.
      destruct (token_run s pre A _ Hs Hrun) as [Hend Htok]; [done|].
      destruct (IHl Hl ltac:(done) (pre ++ A ++ ["("%char]) (")"%char :: post))
        as [fl Hfl]; [by rewrite Hs, <- !app_assoc | done |].
      exists (S fl). rewrite parse_tree_step, Htok, Hint, Hend.
      rewrite <- length_app.
      rewrite (group_present s _ (pre ++ A) (L ++ ")"%char :: post) l
                 (length (pre ++ A ++ ["("%char]) + length L)%nat).
      2:{ by rewrite Hs, <- !app_assoc. }
      2:{ rewrite <- Hfl. f_equal. rewrite !length_app. simpl. lia. }
      replace (length (pre ++ A ++ ["("%char]) + length L + 1)%nat
        with (length (pre ++ A ++ "("%char :: L ++ [")"%char])).
      2:{ rewrite !length_app. simpl. rewrite !length_app. simpl. lia. }
      rewrite (group_absent s _ _ post); [|by rewrite Hs, <- !app_assoc; simpl;
                                             rewrite <- !app_assoc | done].
      do 2 f_equal. rewrite !length_app. simpl. rewrite !length_app. simpl. lia.
    + set (r := Node dr rl rr) in *. set (R := chars (show_paren r)) in *.
      assert (Hshow : chars (show_paren (Node (VInt z) l r))
                      = A ++ "("%char :: L ++ ")"%char :: "("%char :: R ++ [")"%char]).
      { cbn [show_paren py_str]. subst l r. cbn iota. by rewrite !chars_app. }
      rewrite Hshow in *. clear Hshow.
      rewrite <- !app_assoc in Hs. cbn [app] in Hs. rewrite <- !app_assoc in Hs.
      cbn [app] in Hs. rewrite <- !app_assoc in Hs. cbn [app] in Hs.
      destruct (token_run s pre A _ Hs Hrun) as [Hend Htok]; [done|].
      destruct (IHl Hl ltac:(done) (pre ++ A ++ ["("%char])
                  (")"%char :: "("%char :: R ++ ")"%char :: post))
        as [fl Hfl]; [by rewrite Hs, <- !app_assoc | done |].
      destruct (IHr Hr ltac:(done)
                  (pre ++ A ++ "("%char :: L ++ [")"%char; "("%char])
                  (")"%char :: post))
        as [fr Hfr]; [|done|].
      { rewrite Hs, <- !app_assoc. simpl. by rewrite <- !app_assoc. }
      exists (S (fl `max` fr)). rewrite parse_tree_step, Htok, Hint, Hend.
      rewrite <- length_app.
      rewrite (group_present s _ (pre ++ A)
                 (L ++ ")"%char :: "("%char :: R ++ ")"%char :: post) l
                 (length (pre ++ A ++ ["("%char]) + length L)%nat).
      2:{ by rewrite Hs, <- !app_assoc. }
      2:{ rewrite <- (parse_tree_more_fuel s fl (fl `max` fr) _ _ ltac:(lia) Hfl) by done.
          f_equal. rewrite !length_app. simpl. lia. }
      replace (length (pre ++ A ++ ["("%char]) + length L + 1)%nat
        with (length (pre ++ A ++ "("%char :: L ++ [")"%char])).
      2:{ rewrite !length_app. simpl. rewrite !length_app. simpl. lia. }
      rewrite (group_present s _ _ (R ++ ")"%char :: post) r
                 (length (pre ++ A ++ "("%char :: L ++ [")"%char; "("%char])
                  + length R)%nat).
      2:{ rewrite Hs, <- !app_assoc. simpl. by rewrite <- !app_assoc. }
      2:{ rewrite <- (parse_tree_more_fuel s fr (fl `max` fr) _ _ ltac:(lia) Hfr) by done.
          f_equal. rewrite !length_app. simpl. rewrite !length_app. simpl. lia. }
      do 2 f_equal. rewrite !length_app. simpl. rewrite !length_app. simpl.
      rewrite !length_app. simpl. lia.
Qed.

Lemma build_from_show_paren (t : tree) :
  left_first t → build_from_parenthesis (show_paren t) = Returned t.
Proof.
  intros Hshape.
  destruct (decide (t = Leaf)) as [->|Hne]; [done|].
  destruct (parse_show_paren (show_paren t) t Hshape Hne [] []) as [fuel Hfuel];
    [by rewrite app_nil_r | done |].
  unfold build_from_parenthesis, crun.
  assert (chars (show_paren t) ≠ []) as Hchars.
  { destruct t as [|d l r]; [done|]. destruct Hshape as ([z ->] & _).
    cbn [show_paren py_str]. rewrite chars_app.
    destruct (str_int_spec z) as (_ & Hz & _). by destruct (chars (str_int z)). }
  rewrite bool_decide_eq_false_2 by (by intros Hs; rewrite Hs in Hchars).
  pose proof (parse_tree_within_fuel (show_paren t) (S (length (chars (show_paren t))))
                0%nat ltac:(lia)) as Htop.
  set (s := show_paren t) in *. set (top := S (length (chars s))) in *.
  cbn [length] in Hfuel.
  pose proof (parse_tree_more_fuel s fuel (top `max` fuel) _ _ ltac:(lia) Hfuel
                ltac:(done)) as Hmax.
  destruct (parse_tree s top 0%nat) as [[t' j]|e|] eqn:E; [| |done].
  - rewrite (parse_tree_more_fuel s top (top `max` fuel) _ _ ltac:(lia) E) in Hmax by done.
    by injection Hmax as -> _.
  - rewrite (parse_tree_more_fuel s top (top `max` fuel) _ _ ltac:(lia) E) in Hmax; done.
Qed.

(** X16: every tree of integers in which no node has a right child without
    a left child is built back from its text in the documented format
    (value, then the subtrees in parentheses): [build_from_parenthesis]
    returns exactly that tree. *)
Theorem parenthesis_round_trip (t : tree) (Hshape : left_first t) :
  build_from_parenthesis (show_paren t) = Returned t.
Proof. by apply build_from_show_paren. Qed.

Lemma parenthesis_round_trip_witness :
  left_first (Node (VInt 1)
                (Node (VInt (-20)) (Node (VInt 4) Leaf Leaf) (Node (VInt 5) Leaf Leaf))
                (Node (VInt 3) (Node (VInt 6) Leaf Leaf) Leaf)) ∧
  build_from_parenthesis "1(-20(4)(5))(3(6))"
    = Returned (Node (VInt 1)
                  (Node (VInt (-20)) (Node (VInt 4) Leaf Leaf) (Node (VInt 5) Leaf Leaf))
                  (Node (VInt 3) (Node (VInt 6) Leaf Leaf) Leaf)).
Proof.
  assert (H : left_first (Node (VInt 1)
                (Node (VInt (-20)) (Node (VInt 4) Leaf Leaf) (Node (VInt 5) Leaf Leaf))
                (Node (VInt 3) (Node (VInt 6) Leaf Leaf) Leaf))).
  { simpl. split_and!; try done; by eexists. }
  split; [exact H|]. exact (parenthesis_round_trip _ H).
Defined.

(** ** Text without a format name *)

Lemma token_char_not_paren c :
  token_char c = true → c ≠ "("%char ∧ c ≠ ")"%char.
Proof. intros Hc. split; intros ->; done. Qed.

Lemma str_int_no_paren z :
  ("("%char ∉ chars (str_int z)) ∧ (")"%char ∉ chars (str_int z)).
Proof.
  destruct (str_int_spec z) as (_ & _ & Hrun).
  rewrite forallb_forall in Hrun.
  split; intros Hin%list_elem_of_In%Hrun; by apply token_char_not_paren in Hin as [??].
Qed.

(** X17: text in the documented format given to a dispatcher without a
    format name.  The text of a tree with at least one child contains a
    parenthesis, is detected as such and is built back into the tree.  The
    text of a single node, a bare integer, contains none: it is taken for a
    pre-order sequence and becomes a left chain of its characters. *)
Theorem text_without_method (t : tree) (Hshape : left_first t) (Hnode : t ≠ Leaf) :
  match t with
  | Node (VInt z) Leaf Leaf =>
      Problem.build_tree (InStr (show_paren t)) None
        = Returned (left_chain (str_items (str_int z)))
  | _ => Problem.build_tree (InStr (show_paren t)) None = Returned t
  end.
Proof.
  destruct t as [|d l r]; [done|]. destruct Hshape as ([z ->] & Hlr & Hl & Hr).
  pose proof (build_from_show_paren (Node (VInt z) l r)
                (conj (ex_intro _ z eq_refl) (conj Hlr (conj Hl Hr)))) as Hbuilt.
  destruct (str_int_spec z) as (_ & Hne & _).
  destruct (str_int_no_paren z) as [Hno1 Hno2].
  assert (Hparen : l ≠ Leaf →
            Problem.build_tree (InStr (show_paren (Node (VInt z) l r))) None
            = Returned (Node (VInt z) l r)).
  { intros Hl'. unfold Problem.build_tree.
    assert (detect_input_format (InStr (show_paren (Node (VInt z) l r)))
            = Some "parenthesis") as ->; [|exact Hbuilt].
    unfold detect_input_format.
    assert ("("%char ∈ chars (show_paren (Node (VInt z) l r))) as Hin.
    { cbn [show_paren py_str]. rewrite chars_app. apply elem_of_app. right.
      destruct l; [done|]. destruct r; rewrite chars_app; apply list_elem_of_here. }
    assert (truthy (InStr (show_paren (Node (VInt z) l r))) = true) as ->.
    { cbn [truthy]. rewrite bool_decide_eq_false_2; [done|].
      intros Hs. rewrite Hs in Hin. by apply elem_of_nil in Hin. }
    simpl. rewrite bool_decide_eq_true_2; [done|].
    apply paren_set_spec. by left. }
  destruct l as [|dl ll lr]; [|by apply Hparen].
  rewrite (Hlr eq_refl) in *. cbn [show_paren py_str].
  replace (str_int z +:+ "") with (str_int z).
  2:{ generalize (str_int z). induction s as [|c s IH]; [done|].
      change (String c s +:+ "") with (String c (s +:+ "")). by f_equal. }
  unfold Problem.build_tree. rewrite (detect_plain (InStr (str_int z))).
  - apply build_from_pre_order_chain.
  - simpl. destruct (str_int z); [done|done].
  - by intros (l & ? & _).
  - intros (s & [= <-] & [H|H]); done.
Qed.

Lemma text_without_method_witness :
  left_first (Node (VInt 42) Leaf Leaf) ∧ Node (VInt 42) Leaf Leaf ≠ Leaf ∧
  Problem.build_tree (InStr "42") None
    = Returned (Node (VStr "4") (Node (VStr "2") Leaf Leaf) Leaf).
Proof.
  assert (H1 : left_first (Node (VInt 42) Leaf Leaf)).
  { simpl. split_and!; try done; by eexists. }
  assert (H2 : Node (VInt 42) Leaf Leaf ≠ Leaf) by discriminate.
  split; [exact H1|]. split; [exact H2|].
  exact (text_without_method (Node (VInt 42) Leaf Leaf) H1 H2).
Defined.

(** ** [tree_serializer]: parentheses *)

Lemma paren_scan_skip ds rest depth :
  "("%char ∉ ds → ")"%char ∉ ds →
  paren_scan (ds ++ rest) depth = paren_scan rest depth.
Proof.
  induction ds as [|c ds IH]; [done|]. intros H1 H2. simpl.
  rewrite !bool_decide_eq_false_2 by (intros ->; set_solver).
  apply IH; set_solver.
Qed.

Lemma paren_scan_serializer t : int_valued t → ∀ rest depth,
  paren_scan (chars (tree_serializer t) ++ rest) depth = paren_scan rest depth.
Proof.
  induction t as [|d l IHl r IHr]; intros Hint rest depth; [done|].
  destruct Hint as ([z ->] & Hl & Hr). rewrite tree_serializer_chars.
  destruct (str_int_no_paren z) as [Hno1 Hno2]. cbn [py_str].
  rewrite <- !app_assoc. rewrite paren_scan_skip by done.
  cbn [app paren_scan]. rewrite bool_decide_eq_true_2 by done.
  rewrite <- !app_assoc. rewrite IHl by done.
  cbn [app paren_scan]. rewrite bool_decide_eq_false_2 by done.
  rewrite bool_decide_eq_true_2 by done. rewrite bool_decide_eq_true_2 by done.
  rewrite <- !app_assoc. rewrite IHr by done.
  cbn [app paren_scan]. rewrite bool_decide_eq_false_2 by done.
  by rewrite bool_decide_eq_true_2 by done.
Qed.

(** X18: the text that [tree_serializer] writes for a tree of integers has
    balanced parentheses. *)
Theorem tree_serializer_balanced (t : tree) (Hint : int_valued t) :
  balanced (tree_serializer t) = true.
Proof.
  unfold balanced. rewrite <- (app_nil_r (chars (tree_serializer t))).
  by rewrite paren_scan_serializer.
Qed.

Lemma tree_serializer_balanced_witness :
  int_valued tree_3_1_2 ∧ balanced (tree_serializer tree_3_1_2) = true.
Proof.
  assert (H : int_valued tree_3_1_2) by (simpl; eauto 10).
  split; [exact H | exact (tree_serializer_balanced tree_3_1_2 H)].
Defined.

(** ** Level-order input: values after the queue runs empty *)

(** X19: when the two values after the root are both null markers, the
    queue of [build_from_level_order] is empty after the first round and
    the loop stops: the result is the single root node, and every value
    that follows in the list is dropped without an error. *)
Theorem level_order_drops_rest (x0 m : value) (rest : list value) (Hroot : x0 ≠ m) :
  build_from_level_order (x0 :: m :: m :: rest) m = Returned (Node x0 Leaf Leaf).
Proof.
  unfold build_from_level_order, py_eq.
  rewrite bool_decide_eq_false_2 by done.
  unfold level_order_from_root. cbn [new_node app length level_order_loop].
  rewrite bool_decide_eq_true_2 by lia.
  unfold attach_child. cbn [lookup list_lookup Nat.add].
  rewrite !bool_decide_eq_true_2 by done.
  cbn [level_order_loop]. reflexivity.
Qed.

Lemma level_order_drops_rest_witness :
  VInt 1 ≠ VInt (-1) ∧
  build_from_level_order (ints [1; -1; -1; 5; 6]) (VInt (-1))
    = Returned (Node (VInt 1) Leaf Leaf).
Proof.
  assert (H : VInt 1 ≠ VInt (-1)) by discriminate.
  split; [exact H|].
  exact (level_order_drops_rest (VInt 1) (VInt (-1)) (ints [5; 6]) H).
Defined.
